(** * Alert rule evaluation and notification engine

  A shallow embedding of [apps/server/src/alerts/alertsEngine.ts]
  ([generateMessage] and [checkRules]) together with the properties of the
  specification that concern it.

  Layout:
  - [JsString]: the part of [String.prototype.replace] the engine uses
    (string pattern, string replacement);
  - [JsNumber]: numbers with their comparisons and [Number.prototype.toString];
  - the Prisma records the engine reads and writes;
  - an error-and-history monad for the awaited collaborator calls
    (Redis, Prisma, Socket.IO, console), each collaborator answering as a
    function of the calls made so far;
  - [generateMessage] and [checkRules];
  - [Spec]: the pipeline of the specification, to compare [checkRules] with;
  - the histories a run can produce, and the fixtures of the unit tests;
  - the properties. *)

From Stdlib Require Import ZArith QArith List Bool Lia.
From Stdlib Require Import Ascii String DecimalString.
Import ListNotations.

Open Scope string_scope.
Open Scope Z_scope.

(* ================================================================== *)
(** ** Strings *)

Module JsString.

(** [s.slice(n)]: the string without its first [n] characters. *)
Fixpoint drop (n : nat) (s : string) : string :=
  match n, s with
  | O, _ => s
  | S _, EmptyString => EmptyString
  | S n', String _ s' => drop n' s'
  end.

(** [s.slice(0, n)]. *)
Fixpoint take (n : nat) (s : string) : string :=
  match n, s with
  | O, _ => EmptyString
  | S _, EmptyString => EmptyString
  | S n', String c s' => String c (take n' s')
  end.

Fixpoint repeat (c : ascii) (n : nat) : string :=
  match n with
  | O => EmptyString
  | S n' => String c (repeat c n')
  end.

(** [s.startsWith(pat)]. *)
Fixpoint starts_with (pat s : string) : bool :=
  match pat, s with
  | EmptyString, _ => true
  | String _ _, EmptyString => false
  | String a pat', String b s' => Ascii.eqb a b && starts_with pat' s'
  end.

(** The first occurrence of [pat] in [s], as the text before it and the
    text after it ([s.indexOf(pat)] and the two slices around the match). *)
Fixpoint split_first (pat s : string) : option (string * string) :=
  if starts_with pat s then Some (EmptyString, drop (String.length pat) s)
  else
    match s with
    | EmptyString => None
    | String c s' =>
        match split_first pat s' with
        | Some (before, after) => Some (String c before, after)
        | None => None
        end
    end.

(** ECMAScript [GetSubstitution] for a string pattern: there are no
    captures, so only [$$], [$&], [$`] and [$'] are special in the
    replacement text; [$n] and [$<] stay as they are written. *)
Fixpoint GetSubstitution (matched before after template : string) : string :=
  match template with
  | EmptyString => EmptyString
  | String c tl =>
      if Ascii.eqb c "$" then
        match tl with
        | EmptyString => String c EmptyString
        | String d rest =>
            if Ascii.eqb d "$" then String "$" (GetSubstitution matched before after rest)
            else if Ascii.eqb d "&" then matched ++ GetSubstitution matched before after rest
            else if Ascii.eqb d "`" then before ++ GetSubstitution matched before after rest
            else if Ascii.eqb d "'" then after ++ GetSubstitution matched before after rest
            else String c (GetSubstitution matched before after tl)
        end
      else String c (GetSubstitution matched before after tl)
  end.

(** [s.replace(pat, replacement)] with a string [pat]: only the first
    occurrence is replaced. *)
Definition replace (pat replacement s : string) : string :=
  match split_first pat s with
  | None => s
  | Some (before, after) =>
      before ++ GetSubstitution pat before after replacement ++ after
  end.

(** [s.includes(pat)]. *)
Definition includes (pat s : string) : bool :=
  match split_first pat s with Some _ => true | None => false end.

(** The character [c] occurs in [s]. *)
Fixpoint has_char (c : ascii) (s : string) : bool :=
  match s with
  | EmptyString => false
  | String d s' => Ascii.eqb c d || has_char c s'
  end.

End JsString.

(* ================================================================== *)
(** ** Numbers *)

Module JsNumber.

(** A Number is [NaN], an infinity, or a finite value written as a decimal
    [m * 10^e].  Every finite double is such a decimal (the digits and
    exponent that [Number::toString] prints identify it), and the two zeros
    are one value here: the engine only compares numbers and prints them,
    and neither tells [-0] from [+0]. *)
Inductive number : Type :=
| NaN
| Infinity (negative : bool)
| Finite (m : Z) (e : Z).

Definition of_Z (z : Z) : number := Finite z 0.

(** The rational a finite number denotes. *)
Definition Qvalue (m e : Z) : Q :=
  if 0 <=? e then inject_Z (m * 10 ^ e) else Qmake m (Z.to_pos (10 ^ (- e))).

(** Comparison of the mathematical values; [None] when a [NaN] is involved
    (the [undefined] of the abstract relational comparison). *)
Definition compare (x y : number) : option comparison :=
  match x, y with
  | NaN, _ | _, NaN => None
  | Infinity nx, Infinity ny =>
      Some (match nx, ny with
            | true, false => Lt
            | false, true => Gt
            | _, _ => Eq
            end)
  | Infinity nx, Finite _ _ => Some (if nx then Lt else Gt)
  | Finite _ _, Infinity ny => Some (if ny then Gt else Lt)
  | Finite m1 e1, Finite m2 e2 =>
      let lo := Z.min e1 e2 in
      Some (Z.compare (m1 * 10 ^ (e1 - lo)) (m2 * 10 ^ (e2 - lo)))
  end.

(** [x > y] *)
Definition gt (x y : number) : bool :=
  match compare x y with Some Gt => true | _ => false end.
(** [x < y] *)
Definition lt (x y : number) : bool :=
  match compare x y with Some Lt => true | _ => false end.
(** [x >= y] *)
Definition ge (x y : number) : bool :=
  match compare x y with Some Gt | Some Eq => true | _ => false end.
(** [x <= y] *)
Definition le (x y : number) : bool :=
  match compare x y with Some Lt | Some Eq => true | _ => false end.
(** [x === y] on two numbers *)
Definition strict_eq (x y : number) : bool :=
  match compare x y with Some Eq => true | _ => false end.
(** [x !== y] on two numbers *)
Definition strict_neq (x y : number) : bool := negb (strict_eq x y).

Definition digits_of_pos (p : positive) : string :=
  NilEmpty.string_of_uint (Pos.to_uint p).

(** The digits without their trailing zeros. *)
Fixpoint strip_trailing_zeros (s : string) : string :=
  match s with
  | EmptyString => EmptyString
  | String c r =>
      match strip_trailing_zeros r with
      | EmptyString => if Ascii.eqb c "0" then EmptyString else String c EmptyString
      | r' => String c r'
      end
  end.

(** Steps 5 to 10 of [Number::toString] (radix 10) for a positive value
    [s * 10^(n-k)] whose [k] digits are [s]. *)
Definition format_digits (s : string) (n : Z) : string :=
  let k := Z.of_nat (String.length s) in
  if (k <=? n) && (n <=? 21) then
    s ++ JsString.repeat "0" (Z.to_nat (n - k))
  else if (0 <? n) && (n <=? 21) then
    JsString.take (Z.to_nat n) s ++ "." ++ JsString.drop (Z.to_nat n) s
  else if (-6 <? n) && (n <=? 0) then
    "0." ++ JsString.repeat "0" (Z.to_nat (- n)) ++ s
  else
    let e := n - 1 in
    let sign := if e <? 0 then "-" else "+" in
    let exponent :=
      match Z.abs e with
      | Zpos p => digits_of_pos p
      | _ => "0"
      end in
    if k =? 1 then s ++ "e" ++ sign ++ exponent
    else JsString.take 1 s ++ "." ++ JsString.drop 1 s ++ "e" ++ sign ++ exponent.

(** [x.toString()] *)
Definition toString (x : number) : string :=
  match x with
  | NaN => "NaN"
  | Infinity false => "Infinity"
  | Infinity true => "-Infinity"
  | Finite Z0 _ => "0"
  | Finite (Zpos p) e =>
      let ds := digits_of_pos p in
      format_digits (strip_trailing_zeros ds) (e + Z.of_nat (String.length ds))
  | Finite (Zneg p) e =>
      let ds := digits_of_pos p in
      "-" ++ format_digits (strip_trailing_zeros ds) (e + Z.of_nat (String.length ds))
  end.

End JsNumber.

Import JsNumber.

(* ================================================================== *)
(** ** The message renderer *)

(** [generateMessage] (alertsEngine.ts, lines 35-40). *)
Definition generateMessage (template metricName : string) (value threshold : number) : string :=
  JsString.replace "{threshold}" (toString threshold)
    (JsString.replace "{value}" (toString value)
       (JsString.replace "{metricName}" metricName template)).

(* ================================================================== *)
(** ** Data model (schema.prisma) *)

Module Reading.
Record t := mk
  { id : string; metric_id : string; timestamp : Z; value : number }.
End Reading.

Module AlertRule.
Record t := mk
  { id : string; metric_id : string; condition : string;
    threshold : number; level : string; message_template : string }.
End AlertRule.

Module Device.
(** [owner_id] is read through its truthiness only; [None] stands for a
    missing (null or undefined) value. *)
Record t := mk
  { id : string; name : string; description : option string;
    location : option string; type : option string;
    owner_id : option string }.
End Device.

Module Metric.
(** A metric with its device, as [findUnique] with [include: { device: true }]
    returns it. *)
Record t := mk
  { id : string; device_id : string; name : string; unit : string;
    device : Device.t }.
End Metric.

Module AlertData.
(** The [data] argument of [prisma.alert.create]. *)
Record t := mk
  { metric_id : string; reading_id : string; level : string;
    status : string; threshold : number; message : string }.
End AlertData.

Module Alert.
Record t := mk
  { id : string; metric_id : string; reading_id : option string;
    level : string; status : string; threshold : option number;
    message : string; created_at : Z }.
End Alert.

(* ================================================================== *)
(** ** Awaited calls: results, events and the monad *)

(** What a rejected promise or a [throw] carries. *)
Definition error := string.

Inductive result (A : Type) : Type :=
| Ok (a : A)
| Thrown (e : error).
Arguments Ok {A} a.
Arguments Thrown {A} e.

(** One call to a collaborator, with what it answered. *)
Inductive event : Type :=
| RedisGet (key : string) (r : result (option string))
| AlertRuleFindMany (metric_id : string) (r : result (list AlertRule.t))
| RedisSet (key value : string) (EX : Z) (r : result unit)
| MetricFindUnique (id : string) (r : result (option Metric.t))
| AlertCreate (data : AlertData.t) (r : result Alert.t)
| IoEmit (room name : string) (payload : Alert.t) (r : result unit)
| ConsoleError (message : string) (e : error).

(** The calls made so far, oldest first. *)
Definition history := list event.

(** The module-level [redisClient].  A collaborator answers as a function of
    the calls made before, so that it can hold state and fail at any call. *)
Module Redis.
Record client := mk
  { get : history -> string -> result (option string);
    set : history -> string -> string -> Z -> result unit }.
End Redis.

(** The module-level [prisma] client, restricted to the three calls made. *)
Module Prisma.
Record client := mk
  { alertRule_findMany : history -> string -> result (list AlertRule.t);
    metric_findUnique : history -> string -> result (option Metric.t);
    alert_create : history -> AlertData.t -> result Alert.t }.
End Prisma.

(** The optional [io] argument: [io.to(room).emit(name, payload)]. *)
Module Io.
Record server := mk
  { to_emit : history -> string -> string -> Alert.t -> result unit }.
End Io.

(** A computation that may throw and that records the calls it makes. *)
Definition M (A : Type) : Type := history -> result A * history.

Definition ret {A} (a : A) : M A := fun h => (Ok a, h).

Definition bind {A B} (m : M A) (k : A -> M B) : M B :=
  fun h =>
    match m h with
    | (Ok a, h') => k a h'
    | (Thrown e, h') => (Thrown e, h')
    end.

(** [try { m } catch (error) { handler(error) }] *)
Definition try_catch {A} (m : M A) (handler : error -> M A) : M A :=
  fun h =>
    match m h with
    | (Ok a, h') => (Ok a, h')
    | (Thrown e, h') => handler e h'
    end.

(** Await one collaborator call and record it. *)
Definition await {A} (call : history -> result A) (ev : result A -> event) : M A :=
  fun h => let r := call h in (r, (h ++ [ev r])%list).

(** Lift a pure step that may throw. *)
Definition lift {A} (r : result A) : M A := fun h => (r, h).

Declare Scope js_scope.
Delimit Scope js_scope with js.
Notation "x <- m ;; k" := (bind m (fun x => k))
  (at level 61, m at next level, right associativity) : js_scope.
Notation "m ;;; k" := (bind m (fun _ => k))
  (at level 61, right associativity) : js_scope.
Open Scope js_scope.

(* ================================================================== *)
(** ** JSON.stringify on a rule list *)

Module JSON.

Definition quote : ascii := "034".
Definition backslash : ascii := "092".

Definition hex_digit (n : nat) : ascii :=
  match n with
  | 0 => "0" | 1 => "1" | 2 => "2" | 3 => "3" | 4 => "4" | 5 => "5" | 6 => "6"
  | 7 => "7" | 8 => "8" | 9 => "9" | 10 => "a" | 11 => "b" | 12 => "c"
  | 13 => "d" | 14 => "e" | _ => "f"
  end%nat%char.

(** [QuoteJSONString] on one character. *)
Definition escape_char (c : ascii) : string :=
  let n := nat_of_ascii c in
  if Ascii.eqb c quote then String backslash (String quote EmptyString)
  else if Ascii.eqb c backslash then String backslash (String backslash EmptyString)
  else if Nat.eqb n 8 then String backslash "b"
  else if Nat.eqb n 9 then String backslash "t"
  else if Nat.eqb n 10 then String backslash "n"
  else if Nat.eqb n 12 then String backslash "f"
  else if Nat.eqb n 13 then String backslash "r"
  else if Nat.ltb n 32 then
    String backslash
      ("u00" ++ String (hex_digit (n / 16)) (String (hex_digit (n mod 16)) EmptyString))
  else String c EmptyString.

Fixpoint escape (s : string) : string :=
  match s with
  | EmptyString => EmptyString
  | String c s' => escape_char c ++ escape s'
  end.

Definition of_string (s : string) : string :=
  String quote (escape s) ++ String quote EmptyString.

(** Numbers that are not finite serialize as [null]. *)
Definition of_number (x : number) : string :=
  match x with
  | Finite _ _ => toString x
  | _ => "null"
  end.

Definition member (key value : string) : string :=
  of_string key ++ ":" ++ value.

Definition of_rule (r : AlertRule.t) : string :=
  "{" ++ member "id" (of_string (AlertRule.id r))
    ++ "," ++ member "metric_id" (of_string (AlertRule.metric_id r))
    ++ "," ++ member "condition" (of_string (AlertRule.condition r))
    ++ "," ++ member "threshold" (of_number (AlertRule.threshold r))
    ++ "," ++ member "level" (of_string (AlertRule.level r))
    ++ "," ++ member "message_template" (of_string (AlertRule.message_template r))
    ++ "}".

Fixpoint join (sep : string) (l : list string) : string :=
  match l with
  | [] => EmptyString
  | [x] => x
  | x :: l' => x ++ sep ++ join sep l'
  end.

(** [JSON.stringify(rules)] *)
Definition stringify (rules : list AlertRule.t) : string :=
  "[" ++ join "," (map of_rule rules) ++ "]".

End JSON.

(* ================================================================== *)
(** ** The evaluation pipeline *)

Definition RULES_CACHE_TTL : Z := 300.

(** The [switch (rule.condition)] of lines 69-77: [Some b] when a case sets
    [conditionMet] to [b], [None] for [default: continue]. *)
Definition conditionMet (condition : string) (value threshold : number) : option bool :=
  if String.eqb condition ">" then Some (gt value threshold)
  else if String.eqb condition "<" then Some (lt value threshold)
  else if String.eqb condition ">=" then Some (ge value threshold)
  else if String.eqb condition "<=" then Some (le value threshold)
  else if String.eqb condition "==" then Some (strict_eq value threshold)
  else if String.eqb condition "!=" then Some (strict_neq value threshold)
  else None.

(** Truthiness of a string that may be missing. *)
Definition truthy (s : option string) : bool :=
  match s with
  | Some (String _ _) => true
  | _ => false
  end.

(** The object literal of lines 82-89. *)
Definition alertData (reading : Reading.t) (rule : AlertRule.t) (metric : Metric.t) : AlertData.t :=
  {| AlertData.metric_id := Reading.metric_id reading;
     AlertData.reading_id := Reading.id reading;
     AlertData.level := AlertRule.level rule;
     AlertData.status := "new";
     AlertData.threshold := AlertRule.threshold rule;
     AlertData.message :=
       generateMessage (AlertRule.message_template rule) (Metric.name metric)
         (Reading.value reading) (AlertRule.threshold rule) |}.

Definition user_room (owner_id : option string) : string :=
  "user:" ++ match owner_id with Some o => o | None => EmptyString end.

Section Engine.

(** The ambient singletons of the module and the host's [JSON.parse].  A
    cached payload parses to a rule array ([Some rules]), to a falsy value
    such as [null] ([None]), or not at all ([Thrown]); the type assertion
    [as AlertRule[]] of line 50 is taken at its word. *)
Variable redisClient : Redis.client.
Variable prisma : Prisma.client.
Variable JSON_parse : string -> result (option (list AlertRule.t)).

(** The body of the [for] loop, lines 64-97. *)
Fixpoint for_rules (reading : Reading.t) (io : option Io.server) (metric : Metric.t)
         (rules : list AlertRule.t) : M unit :=
  match rules with
  | [] => ret tt
  | rule :: rest =>
      let value := Reading.value reading in
      let threshold := AlertRule.threshold rule in
      match conditionMet (AlertRule.condition rule) value threshold with
      | None => for_rules reading io metric rest
      | Some false => for_rules reading io metric rest
      | Some true =>
          let data := alertData reading rule metric in
          createdAlert <- await (fun h => Prisma.alert_create prisma h data)
                                (AlertCreate data) ;;
          match io with
          | Some server =>
              if truthy (Device.owner_id (Metric.device metric)) then
                let room := user_room (Device.owner_id (Metric.device metric)) in
                await (fun h => Io.to_emit server h room "new_alert" createdAlert)
                      (IoEmit room "new_alert" createdAlert)
              else ret tt
          | None => ret tt
          end ;;;
          for_rules reading io metric rest
      end
  end.

(** Lines 54-55: query the store and write the result through to the cache. *)
Definition query_store (metricId cacheKey : string) : M (list AlertRule.t) :=
  rules <- await (fun h => Prisma.alertRule_findMany prisma h metricId)
                 (AlertRuleFindMany metricId) ;;
  await (fun h => Redis.set redisClient h cacheKey (JSON.stringify rules) RULES_CACHE_TTL)
        (RedisSet cacheKey (JSON.stringify rules) RULES_CACHE_TTL) ;;;
  ret rules.

(** Lines 47-56: the rules, from the cache or from the store. *)
Definition fetch_rules (metricId cacheKey : string) : M (list AlertRule.t) :=
  cached <- await (fun h => Redis.get redisClient h cacheKey) (RedisGet cacheKey) ;;
  rules <- match cached with
           | Some (String _ _ as text) => lift (JSON_parse text)
           | _ => ret None
           end ;;
  match rules with
  | Some rules => ret rules
  | None => query_store metricId cacheKey
  end.

(** Lines 58-97: resolve the metric, then run the loop. *)
Definition evaluate (reading : Reading.t) (io : option Io.server)
           (rules : list AlertRule.t) : M unit :=
  let metricId := Reading.metric_id reading in
  metric <- await (fun h => Prisma.metric_findUnique prisma h metricId)
                  (MetricFindUnique metricId) ;;
  match metric with
  | None => ret tt
  | Some metric => for_rules reading io metric rules
  end.

(** The [try] block, lines 46-97. *)
Definition checkRules_body (reading : Reading.t) (io : option Io.server) : M unit :=
  let metricId := Reading.metric_id reading in
  let cacheKey := "alert_rules:" ++ metricId in
  rules <- fetch_rules metricId cacheKey ;;
  evaluate reading io rules.

(** The [catch] block, lines 98-100. *)
Definition log_error (reading : Reading.t) (error : error) : M unit :=
  await (fun _ => Ok tt)
        (fun _ => ConsoleError
                    ("Error in checkRules for reading " ++ Reading.id reading ++ ":") error).

(** [checkRules] (alertsEngine.ts, lines 42-101). *)
Definition checkRules (reading : Reading.t) (io : option Io.server) : M unit :=
  try_catch (checkRules_body reading io) (log_error reading).

End Engine.

(* ================================================================== *)
(** ** The pipeline the specification describes *)

(** Sections 4.3 to 4.5 and 7 of the specification, in its words, to compare
    [checkRules] with: a failure is caught at its call site and logged with
    the reading's id; a cache read that fails is then a cache miss, a cache
    write that fails leaves the queried rules in use, and a failure while
    creating or publishing the alert of one rule leaves the next rules to be
    evaluated. *)
Module Spec.

Section Pipeline.

Variable redisClient : Redis.client.
Variable prisma : Prisma.client.
Variable JSON_parse : string -> result (option (list AlertRule.t)).

(** Section 4.3, [getRules]. *)
Definition getRules (reading : Reading.t) : M (list AlertRule.t) :=
  let metricId := Reading.metric_id reading in
  let cacheKey := "alert_rules:" ++ metricId in
  cached <- try_catch
              (await (fun h => Redis.get redisClient h cacheKey) (RedisGet cacheKey))
              (fun e => log_error reading e ;;; ret None) ;;
  rules <- match cached with
           | Some (String _ _ as text) => lift (JSON_parse text)
           | _ => ret None
           end ;;
  match rules with
  | Some rules => ret rules
  | None =>
      rules <- await (fun h => Prisma.alertRule_findMany prisma h metricId)
                     (AlertRuleFindMany metricId) ;;
      try_catch
        (await (fun h => Redis.set redisClient h cacheKey (JSON.stringify rules)
                           RULES_CACHE_TTL)
               (RedisSet cacheKey (JSON.stringify rules) RULES_CACHE_TTL))
        (log_error reading) ;;;
      ret rules
  end.

(** Section 4.5, [notify]. *)
Definition notify (reading : Reading.t) (io : option Io.server) (metric : Metric.t)
           (alert : Alert.t) : M unit :=
  match io with
  | Some server =>
      if truthy (Device.owner_id (Metric.device metric)) then
        let room := user_room (Device.owner_id (Metric.device metric)) in
        try_catch
          (await (fun h => Io.to_emit server h room "new_alert" alert)
                 (IoEmit room "new_alert" alert))
          (log_error reading)
      else ret tt
  | None => ret tt
  end.

(** Section 4.4, steps 3 to 5, with its partial-failure rule. *)
Fixpoint evaluate_rules (reading : Reading.t) (io : option Io.server) (metric : Metric.t)
         (rules : list AlertRule.t) : M unit :=
  match rules with
  | [] => ret tt
  | rule :: rest =>
      match conditionMet (AlertRule.condition rule) (Reading.value reading)
              (AlertRule.threshold rule) with
      | Some true =>
          let data := alertData reading rule metric in
          try_catch
            (createdAlert <- await (fun h => Prisma.alert_create prisma h data)
                                   (AlertCreate data) ;;
             notify reading io metric createdAlert)
            (log_error reading) ;;;
          evaluate_rules reading io metric rest
      | _ => evaluate_rules reading io metric rest
      end
  end.

(** Section 4.4, [evaluate]. *)
Definition evaluate (reading : Reading.t) (io : option Io.server) : M unit :=
  let metricId := Reading.metric_id reading in
  try_catch
    (rules <- getRules reading ;;
     metric <- await (fun h => Prisma.metric_findUnique prisma h metricId)
                     (MetricFindUnique metricId) ;;
     match metric with
     | None => ret tt
     | Some metric => evaluate_rules reading io metric rules
     end)
    (log_error reading).

End Pipeline.

End Spec.

(* ================================================================== *)
(** ** Reading a history *)

(** The alert data of every [prisma.alert.create] call, in call order. *)
Definition creates (h : history) : list AlertData.t :=
  flat_map (fun ev => match ev with AlertCreate d _ => [d] | _ => [] end) h.

(** The alerts that were persisted: what the successful creates returned. *)
Definition persisted (h : history) : list Alert.t :=
  flat_map (fun ev => match ev with AlertCreate _ (Ok a) => [a] | _ => [] end) h.

(** The data of the successful creates. *)
Definition persisted_data (h : history) : list AlertData.t :=
  flat_map (fun ev => match ev with AlertCreate d (Ok _) => [d] | _ => [] end) h.

(** Every publish call: room, event name and payload. *)
Definition emits (h : history) : list (string * string * Alert.t) :=
  flat_map (fun ev => match ev with IoEmit room name a _ => [(room, name, a)] | _ => [] end) h.

(** The metric ids of the rule queries sent to the persistent store. *)
Definition store_queries (h : history) : list string :=
  flat_map (fun ev => match ev with AlertRuleFindMany m _ => [m] | _ => [] end) h.

(** The metric a history resolved, if any. *)
Definition resolved_metric (h : history) : option Metric.t :=
  hd_error
    (flat_map (fun ev => match ev with MetricFindUnique _ (Ok (Some m)) => [m] | _ => [] end) h).

(** The error of a collaborator call that failed. *)
Definition failure (ev : event) : option error :=
  match ev with
  | RedisGet _ (Thrown e) | AlertRuleFindMany _ (Thrown e) | RedisSet _ _ _ (Thrown e)
  | MetricFindUnique _ (Thrown e) | AlertCreate _ (Thrown e) | IoEmit _ _ _ (Thrown e) => Some e
  | _ => None
  end.

(** The rule's condition holds for the reading. *)
Definition matches (reading : Reading.t) (rule : AlertRule.t) : bool :=
  match conditionMet (AlertRule.condition rule) (Reading.value reading) (AlertRule.threshold rule) with
  | Some true => true
  | _ => false
  end.

(** The publish gate of line 93. *)
Definition gate (io : option Io.server) (metric : Metric.t) : bool :=
  match io with
  | Some _ => truthy (Device.owner_id (Metric.device metric))
  | None => false
  end.

(** The keys written to the cache, successfully or not. *)
Definition cache_writes (h : history) : list string :=
  flat_map (fun ev => match ev with RedisSet key _ _ _ => [key] | _ => [] end) h.

(** The value last written under [key], if any. *)
Definition last_set (key : string) (h : history) : option string :=
  fold_left
    (fun found ev =>
       match ev with
       | RedisSet k value _ (Ok _) => if String.eqb k key then Some value else found
       | _ => found
       end)
    h None.

(** A cache that keeps what was written to it: [get] answers the value last
    set under the key.  Its entries do not expire; it stands for a cache
    within the TTL of its entries. *)
Definition redis_memory : Redis.client :=
  Redis.mk (fun h key => Ok (last_set key h)) (fun _ _ _ _ => Ok tt).

(* ================================================================== *)
(** ** The message renderer the specification describes *)

(** Every occurrence of [pat] in [s] replaced by [text], left to right;
    [fuel] bounds the number of occurrences. *)
Fixpoint substitute_all_fuel (fuel : nat) (pat text s : string) : string :=
  match fuel with
  | O => s
  | S fuel' =>
      match JsString.split_first pat s with
      | None => s
      | Some (before, after) => before ++ text ++ substitute_all_fuel fuel' pat text after
      end
  end.

Definition substitute_all (pat text s : string) : string :=
  substitute_all_fuel (String.length s) pat text s.

(** Section 4.2 of the specification, in its words, to compare
    [generateMessage] with: every literal occurrence of each placeholder is
    replaced by the text of the corresponding value. *)
Definition render_spec (template metricName : string) (value threshold : number) : string :=
  substitute_all "{threshold}" (toString threshold)
    (substitute_all "{value}" (toString value)
       (substitute_all "{metricName}" metricName template)).

(* ================================================================== *)
(** ** Fixtures of the unit tests *)

Module Fixtures.

Definition mockReading : Reading.t :=
  Reading.mk "reading-123" "metric-123" 1704067200000 (Finite 355 (-1)).

Definition mockAlertRule : AlertRule.t :=
  AlertRule.mk "rule-123" "metric-123" ">" (of_Z 30) "critical"
    "{metricName} is {value}, exceeding {threshold}".

Definition rule2 : AlertRule.t :=
  AlertRule.mk "rule-2" "metric-123" ">" (of_Z 25) "warning"
    "{metricName} is {value}, exceeding {threshold}".

(** A rule that the reading of 35.5 does not satisfy. *)
Definition lowRule : AlertRule.t :=
  AlertRule.mk "rule-low" "metric-123" "<" (of_Z 10) "info"
    "{metricName} is {value}, below {threshold}".

Definition mockDevice : Device.t :=
  Device.mk "device-123" "Test Device" (Some "Test Description")
    (Some "Test Location") (Some "sensor") (Some "user-123").

Definition mockMetric : Metric.t :=
  Metric.mk "metric-123" "device-123" "Temperature" "C" mockDevice.

Definition metricWithoutOwner : Metric.t :=
  Metric.mk "metric-123" "device-123" "Temperature" "C"
    (Device.mk "device-123" "Test Device" (Some "Test Description")
       (Some "Test Location") (Some "sensor") (Some EmptyString)).

(** The row the store returns for a create. *)
Definition row (d : AlertData.t) : Alert.t :=
  Alert.mk "alert-123" (AlertData.metric_id d) (Some (AlertData.reading_id d))
    (AlertData.level d) (AlertData.status d) (Some (AlertData.threshold d))
    (AlertData.message d) 0.

(** [JSON.parse] where the scenarios apply it: on the text of [rules],
    which it reads back, and on a text that is not JSON, which it refuses.
    The scenarios apply it to no other text. *)
Definition parse_of (rules : list AlertRule.t) (text : string) : result (option (list AlertRule.t)) :=
  if String.eqb text (JSON.stringify rules) then Ok (Some rules)
  else Thrown "SyntaxError".

Definition redis_hit (rules : list AlertRule.t) : Redis.client :=
  Redis.mk (fun _ _ => Ok (Some (JSON.stringify rules))) (fun _ _ _ _ => Ok tt).

Definition redis_miss : Redis.client :=
  Redis.mk (fun _ _ => Ok None) (fun _ _ _ _ => Ok tt).

Definition redis_down : Redis.client :=
  Redis.mk (fun _ _ => Thrown "Redis connection failed") (fun _ _ _ _ => Ok tt).

Definition redis_readonly : Redis.client :=
  Redis.mk (fun _ _ => Ok None) (fun _ _ _ _ => Thrown "Redis write failed").

(** A cache whose entry is not JSON. *)
Definition redis_corrupt : Redis.client :=
  Redis.mk (fun _ _ => Ok (Some "not json")) (fun _ _ _ _ => Ok tt).

Definition prisma_ok (rules : list AlertRule.t) (metric : option Metric.t) : Prisma.client :=
  Prisma.mk (fun _ _ => Ok rules) (fun _ _ => Ok metric) (fun _ d => Ok (row d)).

(** [mockRejectedValueOnce] then [mockResolvedValueOnce]: the first create
    fails, the later ones succeed. *)
Definition prisma_first_create_fails (rules : list AlertRule.t) (metric : option Metric.t) : Prisma.client :=
  Prisma.mk (fun _ _ => Ok rules) (fun _ _ => Ok metric)
    (fun h d => match creates h with
                | [] => Thrown "First alert creation failed"
                | _ => Ok (row d)
                end).

Definition mockIo : Io.server := Io.mk (fun _ _ _ _ => Ok tt).

Definition throwingIo : Io.server := Io.mk (fun _ _ _ _ => Thrown "Socket.IO error").

(** "should create alert when condition is met with > operator". *)
Definition run_single_rule : result unit * history :=
  checkRules (redis_hit [mockAlertRule]) (prisma_ok [] (Some mockMetric))
    (parse_of [mockAlertRule]) mockReading (Some mockIo) [].

(** "should not send socket notification when device has no owner". *)
Definition run_without_owner : result unit * history :=
  checkRules (redis_hit [mockAlertRule]) (prisma_ok [] (Some metricWithoutOwner))
    (parse_of [mockAlertRule]) mockReading (Some mockIo) [].

(** "should continue processing other rules when one fails": two matching
    rules in the cache, the first create rejected. *)
Definition run_first_create_fails : result unit * history :=
  checkRules (redis_hit [mockAlertRule; rule2])
    (prisma_first_create_fails [] (Some mockMetric))
    (parse_of [mockAlertRule; rule2]) mockReading (Some mockIo) [].

(** Two matching rules and a notifier whose [emit] throws. *)
Definition run_publish_fails : result unit * history :=
  checkRules (redis_hit [mockAlertRule; rule2]) (prisma_ok [] (Some mockMetric))
    (parse_of [mockAlertRule; rule2]) mockReading (Some throwingIo) [].

(** Three rules, the second of which the reading does not satisfy, and a
    notifier whose [emit] throws. *)
Definition run_three_rules_publish_fails : result unit * history :=
  checkRules (redis_hit [mockAlertRule; lowRule; rule2]) (prisma_ok [] (Some mockMetric))
    (parse_of [mockAlertRule; lowRule; rule2]) mockReading (Some throwingIo) [].

(** "should handle redis connection error gracefully": the cache read is
    rejected, the store holds a matching rule. *)
Definition run_cache_down : result unit * history :=
  checkRules redis_down (prisma_ok [mockAlertRule] (Some mockMetric))
    (parse_of [mockAlertRule]) mockReading (Some mockIo) [].

(** The same store behind an empty cache. *)
Definition run_cache_miss : result unit * history :=
  checkRules redis_miss (prisma_ok [mockAlertRule] (Some mockMetric))
    (parse_of [mockAlertRule]) mockReading (Some mockIo) [].

(** The same store behind a cache whose write is rejected. *)
Definition run_cache_readonly : result unit * history :=
  checkRules redis_readonly (prisma_ok [mockAlertRule] (Some mockMetric))
    (parse_of [mockAlertRule]) mockReading (Some mockIo) [].

(** The same scenarios through the pipeline of the specification. *)
Definition spec_first_create_fails : result unit * history :=
  Spec.evaluate (redis_hit [mockAlertRule; rule2])
    (prisma_first_create_fails [] (Some mockMetric))
    (parse_of [mockAlertRule; rule2]) mockReading (Some mockIo) [].

Definition spec_publish_fails : result unit * history :=
  Spec.evaluate (redis_hit [mockAlertRule; rule2]) (prisma_ok [] (Some mockMetric))
    (parse_of [mockAlertRule; rule2]) mockReading (Some throwingIo) [].

Definition spec_three_rules_publish_fails : result unit * history :=
  Spec.evaluate (redis_hit [mockAlertRule; lowRule; rule2]) (prisma_ok [] (Some mockMetric))
    (parse_of [mockAlertRule; lowRule; rule2]) mockReading (Some throwingIo) [].

Definition spec_cache_down : result unit * history :=
  Spec.evaluate redis_down (prisma_ok [mockAlertRule] (Some mockMetric))
    (parse_of [mockAlertRule]) mockReading (Some mockIo) [].

Definition spec_cache_readonly : result unit * history :=
  Spec.evaluate redis_readonly (prisma_ok [mockAlertRule] (Some mockMetric))
    (parse_of [mockAlertRule]) mockReading (Some mockIo) [].

End Fixtures.

(* ================================================================== *)
(** ** The histories [checkRules] can produce *)

(** What the loop of lines 64-97 appends to the history for a rule list, and
    how it ends.  A rule that does not match leaves no trace; a matching
    rule leaves its create and, when the gate is open, its publish; the
    first failed call ends the loop. *)
Inductive loop_trace (reading : Reading.t) (io : option Io.server) (metric : Metric.t) :
  list AlertRule.t -> list event -> result unit -> Prop :=
| loop_done :
    loop_trace reading io metric [] [] (Ok tt)
| loop_skip rule rest evs r :
    matches reading rule = false ->
    loop_trace reading io metric rest evs r ->
    loop_trace reading io metric (rule :: rest) evs r
| loop_create_failed rule rest e :
    matches reading rule = true ->
    loop_trace reading io metric (rule :: rest)
      [AlertCreate (alertData reading rule metric) (Thrown e)] (Thrown e)
| loop_created rule rest a evs r :
    matches reading rule = true ->
    gate io metric = false ->
    loop_trace reading io metric rest evs r ->
    loop_trace reading io metric (rule :: rest)
      (AlertCreate (alertData reading rule metric) (Ok a) :: evs) r
| loop_published rule rest a evs r :
    matches reading rule = true ->
    gate io metric = true ->
    loop_trace reading io metric rest evs r ->
    loop_trace reading io metric (rule :: rest)
      (AlertCreate (alertData reading rule metric) (Ok a)
         :: IoEmit (user_room (Device.owner_id (Metric.device metric))) "new_alert" a (Ok tt)
         :: evs) r
| loop_publish_failed rule rest a e :
    matches reading rule = true ->
    gate io metric = true ->
    loop_trace reading io metric (rule :: rest)
      [AlertCreate (alertData reading rule metric) (Ok a);
       IoEmit (user_room (Device.owner_id (Metric.device metric))) "new_alert" a (Thrown e)]
      (Thrown e).

(** What lines 58-97 append, for the rules at hand. *)
Inductive eval_trace (reading : Reading.t) (io : option Io.server) (rules : list AlertRule.t) :
  list event -> result unit -> Prop :=
| eval_metric_failed e :
    eval_trace reading io rules
      [MetricFindUnique (Reading.metric_id reading) (Thrown e)] (Thrown e)
| eval_metric_not_found :
    eval_trace reading io rules
      [MetricFindUnique (Reading.metric_id reading) (Ok None)] (Ok tt)
| eval_metric_found metric evs r :
    loop_trace reading io metric rules evs r ->
    eval_trace reading io rules
      (MetricFindUnique (Reading.metric_id reading) (Ok (Some metric)) :: evs) r.

(** The cache answered, and what it answered does not give rules: no entry,
    an empty text, or a text that parses to a falsy value. *)
Definition cache_miss (JSON_parse : string -> result (option (list AlertRule.t)))
           (cached : option string) : Prop :=
  match cached with
  | Some (String _ _ as text) => JSON_parse text = Ok None
  | _ => True
  end.

(** What lines 54-55 append. *)
Inductive store_trace (reading : Reading.t) : list event -> result (list AlertRule.t) -> Prop :=
| store_query_failed e :
    store_trace reading
      [AlertRuleFindMany (Reading.metric_id reading) (Thrown e)] (Thrown e)
| store_set_failed rules e :
    store_trace reading
      [AlertRuleFindMany (Reading.metric_id reading) (Ok rules);
       RedisSet ("alert_rules:" ++ Reading.metric_id reading) (JSON.stringify rules)
         RULES_CACHE_TTL (Thrown e)] (Thrown e)
| store_cached rules :
    store_trace reading
      [AlertRuleFindMany (Reading.metric_id reading) (Ok rules);
       RedisSet ("alert_rules:" ++ Reading.metric_id reading) (JSON.stringify rules)
         RULES_CACHE_TTL (Ok tt)] (Ok rules).

(** What lines 47-56 append. *)
Inductive fetch_trace (JSON_parse : string -> result (option (list AlertRule.t)))
          (reading : Reading.t) : list event -> result (list AlertRule.t) -> Prop :=
| fetch_get_failed e :
    fetch_trace JSON_parse reading
      [RedisGet ("alert_rules:" ++ Reading.metric_id reading) (Thrown e)] (Thrown e)
| fetch_parse_failed c text e :
    JSON_parse (String c text) = Thrown e ->
    fetch_trace JSON_parse reading
      [RedisGet ("alert_rules:" ++ Reading.metric_id reading) (Ok (Some (String c text)))]
      (Thrown e)
| fetch_hit c text rules :
    JSON_parse (String c text) = Ok (Some rules) ->
    fetch_trace JSON_parse reading
      [RedisGet ("alert_rules:" ++ Reading.metric_id reading) (Ok (Some (String c text)))]
      (Ok rules)
| fetch_miss cached evs r :
    cache_miss JSON_parse cached ->
    store_trace reading evs r ->
    fetch_trace JSON_parse reading
      (RedisGet ("alert_rules:" ++ Reading.metric_id reading) (Ok cached) :: evs) r.

(** What the [try] block appends. *)
Inductive body_trace (JSON_parse : string -> result (option (list AlertRule.t)))
          (reading : Reading.t) (io : option Io.server) :
  list event -> result unit -> Prop :=
| body_fetch_failed evs e :
    fetch_trace JSON_parse reading evs (Thrown e) ->
    body_trace JSON_parse reading io evs (Thrown e)
| body_evaluated fetched rules evs r :
    fetch_trace JSON_parse reading fetched (Ok rules) ->
    eval_trace reading io rules evs r ->
    body_trace JSON_parse reading io (fetched ++ evs)%list r.

(** What the [catch] block appends for the outcome [r] of the [try] block. *)
Definition log_of (reading : Reading.t) (r : result unit) : list event :=
  match r with
  | Ok _ => []
  | Thrown e =>
      [ConsoleError ("Error in checkRules for reading " ++ Reading.id reading ++ ":") e]
  end.

(** Every publish in [evs] comes right after the successful create of the
    alert it carries. *)
Definition publish_follows_persist (evs : list event) : Prop :=
  forall pre post room name a r,
    evs = (pre ++ IoEmit room name a r :: post)%list ->
    exists pre' d, pre = (pre' ++ [AlertCreate d (Ok a)])%list.

(** The operators of the [switch]. *)
Definition supported (condition : string) : Prop :=
  In condition [">"; "<"; ">="; "<="; "=="; "!="].

(* ================================================================== *)
(** ** Templates as segments *)

(** The three placeholders of a message template. *)
Inductive placeholder : Type := MetricName | Value | Threshold.

(** A template cut into literal text and placeholders. *)
Inductive segment : Type :=
| Text (s : string)
| Hole (p : placeholder).

Definition hole_text (p : placeholder) : string :=
  match p with
  | MetricName => "{metricName}"
  | Value => "{value}"
  | Threshold => "{threshold}"
  end.

Definition placeholder_eqb (p q : placeholder) : bool :=
  match p, q with
  | MetricName, MetricName | Value, Value | Threshold, Threshold => true
  | _, _ => false
  end.

(** The template a segment list spells. *)
Fixpoint template_of (segs : list segment) : string :=
  match segs with
  | [] => EmptyString
  | Text s :: rest => s ++ template_of rest
  | Hole p :: rest => hole_text p ++ template_of rest
  end.

(** [segs] with its first [p] placeholder filled with [text]. *)
Fixpoint fill_first (p : placeholder) (text : string) (segs : list segment) : list segment :=
  match segs with
  | [] => []
  | Hole q :: rest =>
      if placeholder_eqb q p then Text text :: rest else Hole q :: fill_first p text rest
  | seg :: rest => seg :: fill_first p text rest
  end.

(** No literal text of [segs] holds an opening brace. *)
Fixpoint plain (segs : list segment) : bool :=
  match segs with
  | [] => true
  | Text s :: rest => negb (JsString.has_char "{" s) && plain rest
  | Hole _ :: rest => plain rest
  end.

(** What a history wrote to the cache follows the discipline of the rule
    cache for [reading]. *)
Definition disciplined (reading : Reading.t) (evs : list event) : Prop :=
  (forall key value ex r,
      In (RedisSet key value ex r) evs ->
      key = "alert_rules:" ++ Reading.metric_id reading
      /\ ex = 300
      /\ exists rules,
          value = JSON.stringify rules
          /\ In (AlertRuleFindMany (Reading.metric_id reading) (Ok rules)) evs)
  /\ (List.length (cache_writes evs) <= 1)%nat
  /\ (store_queries evs = [] -> cache_writes evs = []).

(* ================================================================== *)
(** ** Awaited calls of the other modules *)

(** The monad of [M] over any type of recorded calls: a computation may
    throw, and appends the calls it awaits to the history. *)
Module Async.
Section Calls.
Context {E : Type}.

Definition M (A : Type) : Type := list E -> result A * list E.

Definition ret {A} (a : A) : M A := fun h => (Ok a, h).

Definition bind {A B} (m : M A) (k : A -> M B) : M B :=
  fun h =>
    match m h with
    | (Ok a, h') => k a h'
    | (Thrown e, h') => (Thrown e, h')
    end.

Definition await {A} (call : list E -> result A) (ev : result A -> E) : M A :=
  fun h => let r := call h in (r, (h ++ [ev r])%list).

Definition lift {A} (r : result A) : M A := fun h => (r, h).

End Calls.
End Async.

Declare Scope async_scope.
Delimit Scope async_scope with async.
Notation "x <- m ;; k" := (Async.bind m (fun x => k))
  (at level 61, m at next level, right associativity) : async_scope.
Notation "m ;;; k" := (Async.bind m (fun _ => k))
  (at level 61, right associativity) : async_scope.

(* ================================================================== *)
(** ** The cache helper (cache.ts) *)

Module Cache.

Definition CACHE_TTL : Z := 60.

Section Helper.

(** The type [T] of the cached data, with the host's [JSON.stringify] and
    [JSON.parse] on it; the return type [Promise<T>] of [getOrSet] is taken
    at its word for what [JSON.parse] returns. *)
Variable T : Type.
Variable JSON_stringify : T -> string.
Variable JSON_parse : string -> result T.

(** One call of the helper, with what it answered. *)
Inductive event : Type :=
| Get (key : string) (r : result (option string))
| FetchData (r : result T)
| SetEx (key : string) (seconds : Z) (value : string) (r : result unit)
| Keys (pattern : string) (r : result (list string))
| Del (keys : list string) (r : result Z).

(** The module-level [redisClient], restricted to the four calls made. *)
Record client := mk
  { get : list event -> string -> result (option string);
    setEx : list event -> string -> Z -> string -> result unit;
    keys : list event -> string -> result (list string);
    del : list event -> list string -> result Z }.

Variable redisClient : client.

(** Lines 16-18: fetch the data and write them through to the cache. *)
Definition fetch_and_set (key : string) (fetchData : list event -> result T)
           (ttl : Z) : Async.M T :=
  (data <- Async.await fetchData FetchData ;;
   Async.await (fun h => setEx redisClient h key ttl (JSON_stringify data))
               (SetEx key ttl (JSON_stringify data)) ;;;
   Async.ret data)%async.

(** [getOrSet] (cache.ts, lines 7-19); [ttl] is [None] when the argument is
    left out. *)
Definition getOrSet (key : string) (fetchData : list event -> result T)
           (ttl : option Z) : Async.M T :=
  let ttl := match ttl with Some seconds => seconds | None => CACHE_TTL end in
  (cached <- Async.await (fun h => get redisClient h key) (Get key) ;;
   match cached with
   | Some (String _ _ as text) => Async.lift (JSON_parse text)
   | _ => fetch_and_set key fetchData ttl
   end)%async.

(** [invalidatePattern] (cache.ts, lines 21-26). *)
Definition invalidatePattern (pattern : string) : Async.M unit :=
  (found <- Async.await (fun h => keys redisClient h pattern) (Keys pattern) ;;
   match found with
   | [] => Async.ret tt
   | _ :: _ =>
       Async.await (fun h => del redisClient h found) (Del found) ;;;
       Async.ret tt
   end)%async.

(** The error of a call that failed. *)
Definition failure (ev : event) : option error :=
  match ev with
  | Get _ (Thrown e) | FetchData (Thrown e) | SetEx _ _ _ (Thrown e)
  | Keys _ (Thrown e) | Del _ (Thrown e) => Some e
  | _ => None
  end.

(** The answers of the data source, in call order. *)
Definition fetches (h : list event) : list (result T) :=
  flat_map (fun ev => match ev with FetchData r => [r] | _ => [] end) h.

(** The entry under [key] after the calls of [h]: the value of the last
    successful [setEx] that no later successful [del] removed. *)
Definition entry (key : string) (h : list event) : option string :=
  fold_left
    (fun found ev =>
       match ev with
       | SetEx k _ value (Ok _) => if String.eqb k key then Some value else found
       | Del ks (Ok _) => if existsb (String.eqb key) ks then None else found
       | _ => found
       end)
    h None.

(** The keys that were ever written. *)
Definition written (h : list event) : list string :=
  flat_map (fun ev => match ev with SetEx k _ _ (Ok _) => [k] | _ => [] end) h.

Definition live (h : list event) (key : string) : bool :=
  match entry key h with Some _ => true | None => false end.

(** A cache that keeps what is written to it until it is deleted; [glob]
    is the pattern matching of [KEYS].  Its entries do not expire: it
    stands for a cache within the TTL of its entries. *)
Definition memory (glob : string -> string -> bool) : client :=
  mk (fun h key => Ok (entry key h))
     (fun _ _ _ _ => Ok tt)
     (fun h pattern =>
        Ok (filter (fun key => glob pattern key && live h key)
                   (nodup string_dec (written h))))
     (fun h ks => Ok (Z.of_nat (List.length (filter (live h) (nodup string_dec ks))))).

End Helper.

Arguments Get {T} key r.
Arguments FetchData {T} r.
Arguments SetEx {T} key seconds value r.
Arguments Keys {T} pattern r.
Arguments Del {T} keys r.
Arguments get {T} c h key.
Arguments setEx {T} c h key seconds value.
Arguments keys {T} c h pattern.
Arguments del {T} c h ks.
Arguments fetch_and_set {T} JSON_stringify redisClient key fetchData ttl.
Arguments getOrSet {T} JSON_stringify JSON_parse redisClient key fetchData ttl.
Arguments invalidatePattern {T} redisClient pattern.
Arguments failure {T} ev.
Arguments fetches {T} h.
Arguments entry {T} key h.
Arguments written {T} h.
Arguments live {T} h key.
Arguments memory {T} glob.

End Cache.

(* ================================================================== *)
(** ** The authentication middleware (auth.ts) *)

Module JsSplit.

(** [s.split(sep)] for a separator of one character: the pieces of [s]
    between the occurrences of [sep], in order; there is always one piece. *)
Fixpoint split (sep : ascii) (s : string) : list string :=
  match s with
  | EmptyString => [EmptyString]
  | String c rest =>
      if Ascii.eqb c sep then EmptyString :: split sep rest
      else
        match split sep rest with
        | piece :: pieces => String c piece :: pieces
        | [] => [String c EmptyString]
        end
  end.

End JsSplit.

(** [req.user], the payload of the token. *)
Module User.
Record t := mk { id : string; role : string }.
End User.

(** The request, as the middleware reads it: [req.headers.authorization]
    and [req.user]. *)
Module AuthRequest.
Record t := mk { authorization : option string; user : option User.t }.
End AuthRequest.

(** [res.status(status).json(body)]. *)
Module Response.
Inductive body : Type :=
| Failure (code message : string)
| Refused
| Accepted (accepted rejected : Z).
Record t := mk { status : Z; json : body }.
End Response.

Module Auth.

(** A middleware ends by calling [next()], with the request as it left it,
    or by sending a response. *)
Inductive outcome : Type :=
| Next (req : AuthRequest.t)
| Sent (res : Response.t).

Definition middleware : Type := AuthRequest.t -> outcome.

(** [app.METHOD(path, m1, ..., mn, handler)]: the middlewares run in order
    until one sends a response. *)
Fixpoint chain (ms : list middleware) (req : AuthRequest.t) : outcome :=
  match ms with
  | [] => Next req
  | m :: rest =>
      match m req with
      | Next req' => chain rest req'
      | Sent res => Sent res
      end
  end.

(** [requireRole] (lines 24-31). *)
Definition requireRole (roles : list string) : middleware :=
  fun req =>
    match AuthRequest.user req with
    | Some user =>
        if existsb (String.eqb (User.role user)) roles then Next req
        else Sent (Response.mk 403 (Response.Failure "forbidden" "Insufficient permissions"))
    | None => Sent (Response.mk 403 (Response.Failure "forbidden" "Insufficient permissions"))
    end.

Definition requireAdmin : middleware := requireRole ["admin"].
Definition requireService : middleware := requireRole ["service"].
Definition requireUserOrAdmin : middleware := requireRole ["user"; "admin"].

Section Authenticate.

(** [process.env.JWT_SECRET] and [jwt.verify(token, secret)]; the type
    assertion on the decoded payload (line 16) is taken at its word. *)
Variable env_JWT_SECRET : option string.
Variable jwt_verify : string -> string -> result User.t.

Definition JWT_SECRET : string :=
  match env_JWT_SECRET with
  | Some (String _ _ as secret) => secret
  | _ => "your-secret-key"
  end.

(** Line 11: [req.headers.authorization?.split(' ')[1]]. *)
Definition token_of (req : AuthRequest.t) : option string :=
  match AuthRequest.authorization req with
  | Some header => nth_error (JsSplit.split " " header) 1
  | None => None
  end.

(** [authenticate] (lines 10-22). *)
Definition authenticate : middleware :=
  fun req =>
    match token_of req with
    | Some (String _ _ as token) =>
        match jwt_verify token JWT_SECRET with
        | Ok decoded => Next (AuthRequest.mk (AuthRequest.authorization req) (Some decoded))
        | Thrown _ => Sent (Response.mk 401 (Response.Failure "unauthorized" "Invalid token"))
        end
    | _ => Sent (Response.mk 401 (Response.Failure "unauthorized" "No token provided"))
    end.

End Authenticate.

End Auth.

(* ================================================================== *)
(** ** The ingestion route (index.ts, POST /readings) *)

(** One element of the request body, as [ReadingSchema] types it. *)
Module ReadingInput.
Record t := mk { metric_id : string; timestamp : string; value : number }.
End ReadingInput.

(** The [data] of one [prisma.reading.create]. *)
Module ReadingData.
Record t := mk { metric_id : string; timestamp : Z; value : number }.
End ReadingData.

(** The keys read from the cache. *)
Definition cache_reads (h : history) : list string :=
  flat_map (fun ev => match ev with RedisGet key _ => [key] | _ => [] end) h.

Module Ingestion.

(** [[...new Set(xs)]]: the elements of [xs] without repetition, in the
    order of their first occurrence. *)
Fixpoint distinct (xs : list string) : list string :=
  match xs with
  | [] => []
  | x :: rest => x :: filter (fun y => negb (String.eqb y x)) (distinct rest)
  end.

(** Line 378. *)
Definition metricIds (readings : list ReadingInput.t) : list string :=
  distinct (map ReadingInput.metric_id readings).

(** The predicate of line 383. *)
Definition may_write (user : User.t) (m : Metric.t) : bool :=
  String.eqb (User.role user) "admin"
  || match Device.owner_id (Metric.device m) with
     | Some owner => String.eqb owner (User.id user)
     | None => false
     end.

(** Line 383.  [req.user!] is read by the predicate, for the first metric:
    without user and with a metric it throws a [TypeError]. *)
Definition allowedMetricIds (user : option User.t) (metrics : list Metric.t)
  : result (list string) :=
  match user, metrics with
  | Some user, _ => Ok (map Metric.id (filter (may_write user) metrics))
  | None, [] => Ok []
  | None, _ :: _ => Thrown "TypeError"
  end.

Section Route.

(** The singletons of the entry point: the engine's collaborators, the
    namespace [liveIo], [new Date(text)], and the two calls the handler
    makes to the store itself. *)
Variable redisClient : Redis.client.
Variable prisma : Prisma.client.
Variable JSON_parse : string -> result (option (list AlertRule.t)).
Variable liveIo : Io.server.
Variable Date_of : string -> Z.
Variable metric_findMany : history -> list string -> result (list Metric.t).
Variable transaction : history -> list ReadingData.t -> result (list Reading.t).

(** Lines 384-387. *)
Definition validReadings (allowed : list string) (readings : list ReadingInput.t)
  : list ReadingData.t :=
  map (fun r => ReadingData.mk (ReadingInput.metric_id r)
                  (Date_of (ReadingInput.timestamp r)) (ReadingInput.value r))
      (filter (fun r => existsb (String.eqb (ReadingInput.metric_id r)) allowed) readings).

(** Await a call of the handler's own; the history keeps the calls of the
    engine only. *)
Definition call {A} (c : history -> result A) : M A := fun h => (c h, h).

(** Line 394. *)
Fixpoint for_created (created : list Reading.t) : M unit :=
  match created with
  | [] => ret tt
  | r :: rest =>
      checkRules redisClient prisma JSON_parse r (Some liveIo) ;;;
      for_created rest
  end.

(** The handler of [POST /readings] (lines 375-402); [parsed] is what
    [z.array(ReadingSchema).parse(req.body)] gives. *)
Definition post_readings (req : AuthRequest.t) (parsed : result (list ReadingInput.t))
  : M Response.t :=
  try_catch
    (readings <- lift parsed ;;
     metrics <- call (fun h => metric_findMany h (metricIds readings)) ;;
     allowed <- lift (allowedMetricIds (AuthRequest.user req) metrics) ;;
     let valid := validReadings allowed readings in
     created <- match valid with
                | [] => ret []
                | _ :: _ => call (fun h => transaction h valid)
                end ;;
     for_created created ;;;
     ret (Response.mk 202
            (Response.Accepted (Z.of_nat (List.length valid))
               (Z.of_nat (List.length readings) - Z.of_nat (List.length valid)))))
    (fun _ => ret (Response.mk 400 Response.Refused)).

(** [app.post('/readings', authenticate, handler)]. *)
Definition route (env_JWT_SECRET : option string)
           (jwt_verify : string -> string -> result User.t)
           (req : AuthRequest.t) (parsed : result (list ReadingInput.t)) : M Response.t :=
  match Auth.authenticate env_JWT_SECRET jwt_verify req with
  | Auth.Next req' => post_readings req' parsed
  | Auth.Sent res => ret res
  end.

End Route.

End Ingestion.

(* ================================================================== *)
(** ** Fixtures of the middleware tests and of the routes *)

Module RouteFixtures.
Import Fixtures.

(** [JSON.parse] on the text of the cached rule list. *)
Definition parse_rules (text : string) : result (list AlertRule.t) :=
  if String.eqb text (JSON.stringify [mockAlertRule]) then Ok [mockAlertRule]
  else Thrown "SyntaxError".

(** The pattern [*]. *)
Definition any_key (pattern key : string) : bool := true.

Definition mockUser : User.t := User.mk "user123" "admin".

(** The owner of the device of the route scenarios, and somebody else. *)
Definition owner : User.t := User.mk "9b2f7d1c-3c5e-4f6a-8b7d-2e1f0a9c8b7a" "user".
Definition stranger : User.t := User.mk "0c1d2e3f-4a5b-4c6d-8e7f-9a0b1c2d3e4f" "user".

(** [jwt.verify] mocked to return [user] for the token [valid_token]. *)
Definition verify_as (user : User.t) (token secret : string) : result User.t :=
  if String.eqb token "valid_token" then Ok user else Thrown "JWT verification failed".

Definition bearer : AuthRequest.t := AuthRequest.mk (Some "Bearer valid_token") None.

(** A metric of a device of [owner], with one rule. *)
Definition device : Device.t :=
  Device.mk "7c9e6679-7425-40de-944b-e07fc1f90ae7" "Test Device" None None None
    (Some "9b2f7d1c-3c5e-4f6a-8b7d-2e1f0a9c8b7a").

Definition metric : Metric.t :=
  Metric.mk "123e4567-e89b-12d3-a456-426614174000" "7c9e6679-7425-40de-944b-e07fc1f90ae7"
    "Temperature" "C" device.

Definition rule : AlertRule.t :=
  AlertRule.mk "3fa85f64-5717-4562-b3fc-2c963f66afa6" "123e4567-e89b-12d3-a456-426614174000"
    ">" (of_Z 20) "warning" "{metricName} is {value}, exceeding {threshold}".

(** "should validate correct reading data": the reading that [ReadingSchema]
    accepts, a batch of it, [new Date] on its timestamp, and the row the
    transaction creates for it. *)
Definition validReading : ReadingInput.t :=
  ReadingInput.mk "123e4567-e89b-12d3-a456-426614174000" "2024-01-01T12:00:00Z"
    (Finite 255 (-1)).

Definition batch : list ReadingInput.t := [validReading].

Definition epoch (text : string) : Z := 1704110400000.

Definition createdReading : Reading.t :=
  Reading.mk "f47ac10b-58cc-4372-a567-0e02b2c3d479" "123e4567-e89b-12d3-a456-426614174000"
    1704110400000 (Finite 255 (-1)).

End RouteFixtures.

(* ================================================================== *)
(** * Properties *)

(** ** Strings *)

Module JsStringFacts.
Import JsString.

Lemma append_nil_r (s : string) : s ++ EmptyString = s.
Proof. induction s as [|c s IH]; simpl; [reflexivity | now rewrite IH]. Qed.

Lemma append_assoc (a b c : string) : (a ++ b) ++ c = a ++ (b ++ c).
Proof. induction a as [|x a IH]; simpl; [reflexivity | now rewrite IH]. Qed.

Lemma starts_with_append (pat s : string) : starts_with pat (pat ++ s) = true.
Proof.
  induction pat as [|c pat IH]; simpl; [reflexivity|].
  now rewrite Ascii.eqb_refl, IH.
Qed.

Lemma drop_append (pat s : string) : drop (String.length pat) (pat ++ s) = s.
Proof. induction pat as [|c pat IH]; simpl; auto. Qed.

Lemma has_char_append (c : ascii) (a b : string) :
  has_char c (a ++ b) = has_char c a || has_char c b.
Proof.
  induction a as [|x a IH]; simpl; [reflexivity|].
  now rewrite IH, orb_assoc.
Qed.

Lemma has_char_drop (c : ascii) (n : nat) (s : string) :
  has_char c s = false -> has_char c (drop n s) = false.
Proof.
  revert s; induction n as [|n IH]; intros [|d s]; simpl; auto.
  intros H; apply orb_false_iff in H as [_ H]; auto.
Qed.

Lemma has_char_take (c : ascii) (n : nat) (s : string) :
  has_char c s = false -> has_char c (take n s) = false.
Proof.
  revert s; induction n as [|n IH]; intros [|d s]; simpl; auto.
  intros H; apply orb_false_iff in H as [-> H]; simpl; auto.
Qed.

Lemma has_char_repeat (c d : ascii) (n : nat) :
  Ascii.eqb c d = false -> has_char c (repeat d n) = false.
Proof. intros H; induction n as [|n IH]; simpl; [reflexivity | now rewrite H, IH]. Qed.

(** A match that starts inside [x] and runs into what follows [x] puts the
    character that follows [x] somewhere after the pattern's first one. *)
Lemma starts_with_overlap (p x : string) (c : ascii) (z : string) :
  starts_with p (x ++ String c z) = true ->
  starts_with p x = true \/ has_char c (drop (String.length x) p) = true.
Proof.
  revert p; induction x as [|d x IH]; intros [|a p]; simpl; auto.
  - intros H; apply andb_true_iff in H as [H _].
    right. apply Ascii.eqb_eq in H; subst. now rewrite Ascii.eqb_refl.
  - intros H; apply andb_true_iff in H as [Had H].
    destruct (IH _ H) as [H1 | H1]; [left | right]; auto.
    now rewrite Had, H1.
Qed.

Lemma includes_cons (pat : string) (d : ascii) (x : string) :
  includes pat (String d x) = false ->
  starts_with pat (String d x) = false /\ includes pat x = false.
Proof.
  unfold includes; cbn [split_first].
  destruct (starts_with pat (String d x)); [discriminate|].
  destruct (split_first pat x) as [[b a]|]; [discriminate | auto].
Qed.

(** For a pattern whose first character does not occur again in it, the
    first match in [x ++ pat ++ y] is the one written, as soon as [x] holds
    no match. *)
Lemma split_first_here (c : ascii) (p x y : string) :
  has_char c p = false ->
  includes (String c p) x = false ->
  split_first (String c p) (x ++ String c p ++ y) = Some (x, y).
Proof.
  intros Hc; induction x as [|d x IH]; intros Hx.
  - change (EmptyString ++ String c p ++ y) with (String c p ++ y).
    destruct (String c p ++ y) eqn:E; [discriminate|].
    cbn [split_first]. rewrite <- E, starts_with_append.
    replace (drop (String.length (String c p)) (String c p ++ y)) with y
      by (symmetry; apply drop_append).
    reflexivity.
  - apply includes_cons in Hx as [Hs Hi].
    change (String d x ++ String c p ++ y) with (String d (x ++ String c (p ++ y))).
    cbn [split_first].
    destruct (starts_with (String c p) (String d (x ++ String c (p ++ y)))) eqn:E.
    + exfalso.
      apply (starts_with_overlap (String c p) (String d x) c (p ++ y)) in E.
      destruct E as [E | E]; [congruence|].
      cbn [String.length drop] in E.
      rewrite (has_char_drop c (String.length x) p Hc) in E. discriminate.
    + change (x ++ String c (p ++ y)) with (x ++ String c p ++ y).
      now rewrite (IH Hi).
Qed.

(** A replacement text without [$] is inserted as it is. *)
Lemma GetSubstitution_plain (matched before after template : string) :
  has_char "$" template = false ->
  GetSubstitution matched before after template = template.
Proof.
  induction template as [|c t IH]; cbn [GetSubstitution has_char]; [reflexivity|].
  intros H; apply orb_false_iff in H as [Hc Ht].
  rewrite Ascii.eqb_sym in Hc. rewrite Hc. now rewrite (IH Ht).
Qed.

Lemma replace_here (c : ascii) (p replacement x y : string) :
  has_char c p = false ->
  includes (String c p) x = false ->
  has_char "$" replacement = false ->
  replace (String c p) replacement (x ++ String c p ++ y) = x ++ replacement ++ y.
Proof.
  intros Hc Hx Hr. unfold replace.
  rewrite (split_first_here c p x y Hc Hx).
  now rewrite GetSubstitution_plain.
Qed.

Lemma replace_absent (pat replacement s : string) :
  includes pat s = false -> replace pat replacement s = s.
Proof.
  unfold includes, replace.
  destruct (split_first pat s) as [[b a]|]; [discriminate | reflexivity].
Qed.

End JsStringFacts.

(** ** Numbers *)

Module JsNumberFacts.
Import JsString JsStringFacts.

Lemma digits_no_dollar (u : Decimal.uint) :
  has_char "$" (NilEmpty.string_of_uint u) = false.
Proof. induction u; simpl; auto. Qed.

Lemma strip_no_dollar (s : string) :
  has_char "$" s = false -> has_char "$" (strip_trailing_zeros s) = false.
Proof.
  induction s as [|c s IH]; cbn [strip_trailing_zeros has_char]; [reflexivity|].
  intros H; apply orb_false_iff in H as [Hc Hs].
  specialize (IH Hs).
  destruct (strip_trailing_zeros s) as [|d r].
  - destruct (Ascii.eqb c "0"); cbn [has_char]; [reflexivity | now rewrite Hc].
  - cbn [has_char] in *. rewrite Hc. exact IH.
Qed.

Lemma format_no_dollar (s : string) (n : Z) :
  has_char "$" s = false -> has_char "$" (format_digits s n) = false.
Proof.
  intros Hs. unfold format_digits.
  assert (Hexp : has_char "$" (match Z.abs (n - 1) with
                               | Zpos p => digits_of_pos p
                               | _ => "0"
                               end) = false).
  { destruct (Z.abs (n - 1)); try reflexivity. apply digits_no_dollar. }
  repeat match goal with
         | |- context [if ?b then _ else _] => destruct b
         end;
    repeat (rewrite has_char_append || cbn [has_char]);
    rewrite ?Hs, ?Hexp, ?has_char_take, ?has_char_drop, ?has_char_repeat by auto;
    reflexivity.
Qed.

(** The text of a number holds no [$], so that it is inserted as it is. *)
Lemma toString_no_dollar (x : number) : has_char "$" (toString x) = false.
Proof.
  destruct x as [|[|]|[|p|p] e]; try reflexivity; unfold toString.
  - apply format_no_dollar, strip_no_dollar, digits_no_dollar.
  - rewrite has_char_append. cbn [has_char Ascii.eqb orb].
    apply format_no_dollar, strip_no_dollar, digits_no_dollar.
Qed.

(** The numerator and denominator of the rational a decimal denotes. *)
Lemma Qvalue_num_den (m e : Z) :
  Qnum (Qvalue m e) = m * 10 ^ Z.max e 0
  /\ Z.pos (Qden (Qvalue m e)) = 10 ^ Z.max (- e) 0.
Proof.
  unfold Qvalue. destruct (0 <=? e) eqn:E.
  - apply Z.leb_le in E. cbn [inject_Z Qnum Qden].
    rewrite Z.max_l, Z.max_r by lia. split; reflexivity.
  - apply Z.leb_gt in E. cbn [Qnum Qden].
    rewrite Z.max_r, Z.max_l by lia.
    rewrite Z2Pos.id by (apply Z.pow_pos_nonneg; lia).
    split; [rewrite Z.pow_0_r; ring | reflexivity].
Qed.

(** On finite numbers [compare] is the order of the rationals. *)
Lemma compare_finite (m1 e1 m2 e2 : Z) :
  compare (Finite m1 e1) (Finite m2 e2)
  = Some ((Qvalue m1 e1 ?= Qvalue m2 e2)%Q).
Proof.
  unfold compare, Qcompare. f_equal.
  destruct (Qvalue_num_den m1 e1) as [-> ->].
  destruct (Qvalue_num_den m2 e2) as [-> ->].
  set (lo := Z.min e1 e2).
  set (k := lo + Z.max (- e1) 0 + Z.max (- e2) 0).
  rewrite (Zmult_compare_compat_r _ _ (10 ^ k))
    by (apply Z.lt_gt, Z.pow_pos_nonneg; subst k lo; lia).
  rewrite <- !Z.mul_assoc, <- !Z.pow_add_r by (subst k lo; lia).
  f_equal; f_equal; f_equal; subst k lo; lia.
Qed.

(** The six comparisons on finite numbers, as comparisons of rationals. *)
Lemma comparisons_finite (m1 e1 m2 e2 : Z) :
  let x := Finite m1 e1 in
  let y := Finite m2 e2 in
  (gt x y = true <-> (Qvalue m2 e2 < Qvalue m1 e1)%Q)
  /\ (lt x y = true <-> (Qvalue m1 e1 < Qvalue m2 e2)%Q)
  /\ (ge x y = true <-> (Qvalue m2 e2 <= Qvalue m1 e1)%Q)
  /\ (le x y = true <-> (Qvalue m1 e1 <= Qvalue m2 e2)%Q)
  /\ (strict_eq x y = true <-> (Qvalue m1 e1 == Qvalue m2 e2)%Q)
  /\ (strict_neq x y = true <-> ~ (Qvalue m1 e1 == Qvalue m2 e2)%Q).
Proof.
  cbv zeta. unfold gt, lt, ge, le, strict_neq, strict_eq.
  rewrite compare_finite.
  rewrite Qgt_alt, Qlt_alt, Qge_alt, Qle_alt, Qeq_alt.
  destruct (Qvalue m1 e1 ?= Qvalue m2 e2)%Q; cbn [negb];
    repeat split; intros; try congruence; try discriminate;
    try (exfalso; auto; fail).
Qed.

End JsNumberFacts.

(** ** The message renderer *)

Section Renderer.
Import JsString JsStringFacts JsNumberFacts.

(** A template without placeholders is returned as it is. *)
Lemma generateMessage_no_placeholder (template metricName : string) (value threshold : number) :
  includes "{metricName}" template = false ->
  includes "{value}" template = false ->
  includes "{threshold}" template = false ->
  generateMessage template metricName value threshold = template.
Proof.
  intros Hn Hv Ht. unfold generateMessage.
  rewrite (replace_absent _ metricName template Hn).
  rewrite (replace_absent _ (toString value) template Hv).
  apply replace_absent, Ht.
Qed.

(** The metric name is put at the first [{metricName}] of the template. *)
Lemma replace_metricName (pre post metricName : string) :
  includes "{metricName}" pre = false ->
  has_char "$" metricName = false ->
  replace "{metricName}" metricName (pre ++ "{metricName}" ++ post)
  = pre ++ metricName ++ post.
Proof. intros Hpre Hname. now apply (replace_here "{" "metricName}"). Qed.

(** C2 (the code departs from the claim).  The unit test "should handle
    multiple occurrences of same variable" renders
    [{metricName}: {value}, {metricName}: {value}]: [generateMessage]
    substitutes the first occurrence of each placeholder only and leaves
    the second ones in the message, where replacing every occurrence, as
    the specification and the test say, gives [Temp: 25, Temp: 25]. *)
Theorem generateMessage_repeated_placeholder :
  generateMessage "{metricName}: {value}, {metricName}: {value}" "Temp" (of_Z 25) (of_Z 20)
  = "Temp: 25, {metricName}: {value}"
  /\ render_spec "{metricName}: {value}, {metricName}: {value}" "Temp" (of_Z 25) (of_Z 20)
     = "Temp: 25, Temp: 25".
Proof. split; reflexivity. Qed.


(** Where the code does what C10 says.  The substitutions are made one
    after the other, [{metricName}] first, then [{value}], then
    [{threshold}], each at the first occurrence only.  So a [{value}] (or
    [{threshold}]) that the metric name brings in is replaced by the
    reading's value (or the rule's threshold) when it is the first
    occurrence of that placeholder in the message rendered so far, for a
    name without [$]. *)
Lemma generateMessage_resubstitutes_first_occurrence
    (pre post a b : string) (value threshold : number) :
  includes "{metricName}" pre = false ->
  has_char "$" a = false ->
  has_char "$" b = false ->
  (includes "{value}" (pre ++ a) = false ->
   generateMessage (pre ++ "{metricName}" ++ post) (a ++ "{value}" ++ b) value threshold
   = replace "{threshold}" (toString threshold) (pre ++ a ++ toString value ++ b ++ post))
  /\ (includes "{threshold}" (pre ++ a) = false ->
      includes "{value}" (pre ++ a ++ "{threshold}" ++ b ++ post) = false ->
      generateMessage (pre ++ "{metricName}" ++ post) (a ++ "{threshold}" ++ b) value threshold
      = pre ++ a ++ toString threshold ++ b ++ post).
Proof.
  intros Hpre Ha Hb. split.
  - intros Hv. unfold generateMessage.
    rewrite replace_metricName; auto.
    2:{ rewrite !has_char_append, Ha, Hb. reflexivity. }
    replace (pre ++ (a ++ "{value}" ++ b) ++ post)
      with ((pre ++ a) ++ "{value}" ++ (b ++ post))
      by (now rewrite !append_assoc).
    rewrite (replace_here "{" "value}" (toString value) (pre ++ a) (b ++ post));
      auto using toString_no_dollar.
    now rewrite !append_assoc.
  - intros Ht Hv. unfold generateMessage.
    rewrite replace_metricName; auto.
    2:{ rewrite !has_char_append, Ha, Hb. reflexivity. }
    replace (pre ++ (a ++ "{threshold}" ++ b) ++ post)
      with (pre ++ a ++ "{threshold}" ++ b ++ post)
      by (now rewrite !append_assoc).
    rewrite (replace_absent "{value}" (toString value) _ Hv).
    replace (pre ++ a ++ "{threshold}" ++ b ++ post)
      with ((pre ++ a) ++ "{threshold}" ++ (b ++ post))
      by (now rewrite !append_assoc).
    rewrite (replace_here "{" "threshold}" (toString threshold) (pre ++ a) (b ++ post));
      auto using toString_no_dollar.
    now rewrite !append_assoc.
Qed.

(** [generateMessage('{metricName}', 'A{value}B', 5, 7)]. *)
Lemma generateMessage_resubstitutes_example :
  generateMessage "{metricName}" "A{value}B" (of_Z 5) (of_Z 7) = "A5B"
  /\ generateMessage "{metricName}" "A{threshold}B" (of_Z 5) (of_Z 7) = "A7B".
Proof.
  destruct (generateMessage_resubstitutes_first_occurrence
              EmptyString EmptyString "A" "B" (of_Z 5) (of_Z 7)
              eq_refl eq_refl eq_refl) as [Hv Ht].
  split; [exact (Hv eq_refl) | exact (Ht eq_refl eq_refl)].
Defined.

End Renderer.

(** ** The pipeline *)

Section EngineFacts.

Variable redisClient : Redis.client.
Variable prisma : Prisma.client.
Variable JSON_parse : string -> result (option (list AlertRule.t)).

Ltac run := unfold bind, await, ret, lift; cbv beta zeta.

Lemma matches_conditionMet (reading : Reading.t) (rule : AlertRule.t) :
  matches reading rule = true <->
  conditionMet (AlertRule.condition rule) (Reading.value reading) (AlertRule.threshold rule)
  = Some true.
Proof.
  unfold matches.
  destruct (conditionMet _ _ _) as [[|]|]; split; congruence.
Qed.

(** A rule that does not match is passed over. *)
Lemma for_rules_skip (reading : Reading.t) (io : option Io.server) (metric : Metric.t)
      (rule : AlertRule.t) (rest : list AlertRule.t) :
  matches reading rule = false ->
  for_rules prisma reading io metric (rule :: rest) = for_rules prisma reading io metric rest.
Proof.
  unfold matches; cbn [for_rules].
  destruct (conditionMet _ _ _) as [[|]|]; congruence.
Qed.

(** The loop produces one of the histories of [loop_trace]. *)
Lemma for_rules_trace (reading : Reading.t) (io : option Io.server) (metric : Metric.t)
      (rules : list AlertRule.t) (h : history) :
  exists evs r,
    for_rules prisma reading io metric rules h = (r, (h ++ evs)%list)
    /\ loop_trace reading io metric rules evs r.
Proof.
  revert h; induction rules as [|rule rest IH]; intros h.
  - exists [], (Ok tt). cbn. unfold ret. rewrite app_nil_r. split; [reflexivity | constructor].
  - destruct (matches reading rule) eqn:Hm.
    2:{ rewrite (for_rules_skip _ _ _ _ _ Hm).
        destruct (IH h) as (evs & r & Hrun & Htr).
        exists evs, r. split; [exact Hrun | now apply loop_skip]. }
    pose proof (proj1 (matches_conditionMet _ _) Hm) as Hc.
    cbn [for_rules]. rewrite Hc. run.
    destruct (Prisma.alert_create prisma h (alertData reading rule metric)) as [a|e] eqn:Ec.
    2:{ eexists _, _. split; [reflexivity | now apply loop_create_failed]. }
    destruct (gate io metric) eqn:Hg.
    + unfold gate in Hg. destruct io as [server|]; [|discriminate].
      rewrite Hg.
      destruct (Io.to_emit server _ _ _ a) as [[]|e] eqn:Ee.
      * destruct (IH ((h ++ [AlertCreate (alertData reading rule metric) (Ok a)])
                        ++ [IoEmit (user_room (Device.owner_id (Metric.device metric)))
                                   "new_alert" a (Ok tt)])%list)
          as (evs & r & Hrun & Htr).
        eexists _, r. split.
        -- rewrite Hrun. rewrite <- !app_assoc. reflexivity.
        -- apply loop_published; auto.
      * eexists _, _. split.
        -- rewrite <- !app_assoc. reflexivity.
        -- apply loop_publish_failed; auto.
    + destruct (IH (h ++ [AlertCreate (alertData reading rule metric) (Ok a)])%list)
        as (evs & r & Hrun & Htr).
      exists (AlertCreate (alertData reading rule metric) (Ok a) :: evs), r. split.
      * unfold gate in Hg. destruct io as [server|]; [rewrite Hg|];
          rewrite Hrun, <- !app_assoc; reflexivity.
      * apply loop_created; auto.
Qed.

(** Lines 58-97 produce one of the histories of [eval_trace]. *)
Lemma evaluate_trace (reading : Reading.t) (io : option Io.server)
      (rules : list AlertRule.t) (h : history) :
  exists evs r,
    evaluate prisma reading io rules h = (r, (h ++ evs)%list)
    /\ eval_trace reading io rules evs r.
Proof.
  unfold evaluate. run.
  destruct (Prisma.metric_findUnique prisma h (Reading.metric_id reading)) as [[metric|]|e].
  - destruct (for_rules_trace reading io metric rules
                (h ++ [MetricFindUnique (Reading.metric_id reading) (Ok (Some metric))])%list)
      as (evs & r & Hrun & Htr).
    eexists _, r. split.
    + rewrite Hrun, <- !app_assoc. reflexivity.
    + now apply eval_metric_found.
  - eexists _, _. split; [reflexivity | constructor].
  - eexists _, _. split; [reflexivity | constructor].
Qed.

(** Lines 54-55 produce one of the histories of [store_trace]. *)
Lemma query_store_trace (reading : Reading.t) (h : history) :
  exists evs r,
    query_store redisClient prisma (Reading.metric_id reading)
      ("alert_rules:" ++ Reading.metric_id reading) h = (r, (h ++ evs)%list)
    /\ store_trace reading evs r.
Proof.
  unfold query_store. run.
  destruct (Prisma.alertRule_findMany prisma h (Reading.metric_id reading)) as [rules|e].
  2:{ eexists _, _. split; [reflexivity | constructor]. }
  destruct (Redis.set redisClient _ _ _ _) as [[]|e];
    eexists _, _; (split; [rewrite <- !app_assoc; reflexivity | constructor]).
Qed.

(** Lines 47-56 produce one of the histories of [fetch_trace]. *)
Lemma fetch_rules_trace (reading : Reading.t) (h : history) :
  exists evs r,
    fetch_rules redisClient prisma JSON_parse (Reading.metric_id reading)
      ("alert_rules:" ++ Reading.metric_id reading) h = (r, (h ++ evs)%list)
    /\ fetch_trace JSON_parse reading evs r.
Proof.
  unfold fetch_rules. run.
  set (key := "alert_rules:" ++ Reading.metric_id reading).
  destruct (Redis.get redisClient h key) as [cached|e] eqn:Eg.
  2:{ eexists _, _. split; [reflexivity | constructor]. }
  assert (Hmiss :
    cache_miss JSON_parse cached ->
    exists evs r,
      query_store redisClient prisma (Reading.metric_id reading) key
        (h ++ [RedisGet key (Ok cached)])%list = (r, (h ++ evs)%list)
      /\ fetch_trace JSON_parse reading evs r).
  { intros Hc.
    destruct (query_store_trace reading (h ++ [RedisGet key (Ok cached)])%list)
      as (evs & r & Hrun & Htr).
    eexists _, r. split.
    - fold key in Hrun. rewrite Hrun, <- !app_assoc. reflexivity.
    - now apply fetch_miss. }
  destruct cached as [[|c text]|].
  - apply Hmiss. exact I.
  - destruct (JSON_parse (String c text)) as [[rules|]|e] eqn:Ep.
    + eexists _, _. split; [reflexivity | now apply fetch_hit].
    + apply Hmiss. exact Ep.
    + eexists _, _. split; [reflexivity | now apply fetch_parse_failed].
  - apply Hmiss. exact I.
Qed.

(** The [try] block produces one of the histories of [body_trace]. *)
Lemma checkRules_body_trace (reading : Reading.t) (io : option Io.server) (h : history) :
  exists evs r,
    checkRules_body redisClient prisma JSON_parse reading io h = (r, (h ++ evs)%list)
    /\ body_trace JSON_parse reading io evs r.
Proof.
  unfold checkRules_body. unfold bind at 1.
  destruct (fetch_rules_trace reading h) as (fetched & r1 & Hrun1 & Htr1).
  rewrite Hrun1. destruct r1 as [rules|e].
  - destruct (evaluate_trace reading io rules (h ++ fetched)%list) as (evs & r & Hrun & Htr).
    exists (fetched ++ evs)%list, r. split.
    + rewrite Hrun, <- app_assoc. reflexivity.
    + now apply body_evaluated with (rules := rules).
  - exists fetched, (Thrown e). split; [reflexivity | now apply body_fetch_failed].
Qed.

(** [checkRules] runs the [try] block and, when it threw, logs the error. *)
Lemma checkRules_run (reading : Reading.t) (io : option Io.server) (h : history) :
  exists evs r,
    body_trace JSON_parse reading io evs r
    /\ checkRules_body redisClient prisma JSON_parse reading io h = (r, (h ++ evs)%list)
    /\ checkRules redisClient prisma JSON_parse reading io h
       = (Ok tt,
          (h ++ evs ++ match r with
                       | Ok _ => []
                       | Thrown e =>
                           [ConsoleError
                              ("Error in checkRules for reading " ++ Reading.id reading ++ ":") e]
                       end)%list).
Proof.
  destruct (checkRules_body_trace reading io h) as (evs & r & Hrun & Htr).
  exists evs, r. split; [exact Htr | split; [exact Hrun|]].
  unfold checkRules, try_catch. rewrite Hrun.
  destruct r as [[]|e].
  - now rewrite app_nil_r.
  - unfold log_error, await. cbv beta zeta. now rewrite <- app_assoc.
Qed.

(** [try { m } catch (e) { console.error(...) }] returns normally. *)
Lemma try_catch_log (reading : Reading.t) (m : M unit) (h1 h2 : history) (r : result unit) :
  m h1 = (r, h2) ->
  try_catch m (log_error reading) h1 = (Ok tt, (h2 ++ log_of reading r)%list).
Proof.
  intros Hm. unfold try_catch. rewrite Hm.
  destruct r as [[]|e]; cbn [log_of]; [now rewrite app_nil_r | reflexivity].
Qed.

(** The [try] block on a cache hit. *)
Lemma checkRules_body_hit (reading : Reading.t) (io : option Io.server) (h : history)
      c text rules :
  Redis.get redisClient h ("alert_rules:" ++ Reading.metric_id reading)
  = Ok (Some (String c text)) ->
  JSON_parse (String c text) = Ok (Some rules) ->
  checkRules_body redisClient prisma JSON_parse reading io h
  = evaluate prisma reading io rules
      (h ++ [RedisGet ("alert_rules:" ++ Reading.metric_id reading)
               (Ok (Some (String c text)))])%list.
Proof.
  intros Hget Hparse. unfold checkRules_body, fetch_rules. run.
  now rewrite Hget, Hparse.
Qed.

(** The [try] block on a cache miss. *)
Lemma checkRules_body_miss (reading : Reading.t) (io : option Io.server) (h : history) cached :
  Redis.get redisClient h ("alert_rules:" ++ Reading.metric_id reading) = Ok cached ->
  cache_miss JSON_parse cached ->
  checkRules_body redisClient prisma JSON_parse reading io h
  = bind (query_store redisClient prisma (Reading.metric_id reading)
            ("alert_rules:" ++ Reading.metric_id reading))
         (evaluate prisma reading io)
         (h ++ [RedisGet ("alert_rules:" ++ Reading.metric_id reading) (Ok cached)])%list.
Proof.
  intros Hget Hmiss. unfold checkRules_body, fetch_rules.
  unfold bind at 1 2 3, await at 1, ret, lift. cbv beta zeta. rewrite Hget.
  destruct cached as [[|c text]|]; cbn [cache_miss] in Hmiss; rewrite ?Hmiss;
    unfold bind; reflexivity.
Qed.

(** Lines 54-55 when both calls succeed. *)
Lemma query_store_ok (metricId cacheKey : string) (h : history) rules :
  Prisma.alertRule_findMany prisma h metricId = Ok rules ->
  Redis.set redisClient (h ++ [AlertRuleFindMany metricId (Ok rules)])%list cacheKey
    (JSON.stringify rules) RULES_CACHE_TTL = Ok tt ->
  query_store redisClient prisma metricId cacheKey h
  = (Ok rules,
     (h ++ [AlertRuleFindMany metricId (Ok rules);
            RedisSet cacheKey (JSON.stringify rules) RULES_CACHE_TTL (Ok tt)])%list).
Proof.
  intros Hfind Hset. unfold query_store. run.
  rewrite Hfind, Hset, <- app_assoc. reflexivity.
Qed.

(** Lines 54-55 when the cache write fails. *)
Lemma query_store_set_failed (metricId cacheKey : string) (h : history) rules e :
  Prisma.alertRule_findMany prisma h metricId = Ok rules ->
  Redis.set redisClient (h ++ [AlertRuleFindMany metricId (Ok rules)])%list cacheKey
    (JSON.stringify rules) RULES_CACHE_TTL = Thrown e ->
  query_store redisClient prisma metricId cacheKey h
  = (Thrown e,
     (h ++ [AlertRuleFindMany metricId (Ok rules);
            RedisSet cacheKey (JSON.stringify rules) RULES_CACHE_TTL (Thrown e)])%list).
Proof.
  intros Hfind Hset. unfold query_store. run.
  rewrite Hfind, Hset, <- app_assoc. reflexivity.
Qed.

(** An operator outside the [switch] takes the [default] branch. *)
Lemma conditionMet_unsupported (condition : string) (value threshold : number) :
  ~ supported condition -> conditionMet condition value threshold = None.
Proof.
  unfold supported, conditionMet. cbn [In]. intros H.
  repeat match goal with
         | |- context [String.eqb condition ?op] =>
             destruct (String.eqb_spec condition op) as [->|_]; [exfalso; tauto|]
         end.
  reflexivity.
Qed.

(** The loop on a list with a malformed rule is the loop on the list
    without it. *)
Lemma for_rules_malformed (reading : Reading.t) (io : option Io.server) (metric : Metric.t)
      (before : list AlertRule.t) (bad : AlertRule.t) (after : list AlertRule.t) (h : history) :
  ~ supported (AlertRule.condition bad) ->
  for_rules prisma reading io metric (before ++ bad :: after) h
  = for_rules prisma reading io metric (before ++ after) h.
Proof.
  intros Hbad. revert h. induction before as [|rule before IH]; intros h.
  - cbn [app for_rules]. now rewrite conditionMet_unsupported.
  - cbn [app for_rules].
    destruct (conditionMet _ _ _) as [[|]|]; auto.
    run.
    destruct (Prisma.alert_create prisma h _) as [a|e]; [|reflexivity].
    destruct io as [server|]; [|apply IH].
    destruct (truthy _); [|apply IH].
    destruct (Io.to_emit server _ _ _ a) as [[]|e]; [apply IH | reflexivity].
Qed.

(** A create that fails ends the loop at once. *)
Lemma for_rules_create_failure (reading : Reading.t) (io : option Io.server) (metric : Metric.t)
      (rule : AlertRule.t) (rest : list AlertRule.t) (h : history) (e : error) :
  matches reading rule = true ->
  Prisma.alert_create prisma h (alertData reading rule metric) = Thrown e ->
  for_rules prisma reading io metric (rule :: rest) h
  = (Thrown e, (h ++ [AlertCreate (alertData reading rule metric) (Thrown e)])%list).
Proof.
  intros Hm Hc. apply matches_conditionMet in Hm.
  cbn [for_rules]. rewrite Hm. run. now rewrite Hc.
Qed.

(** With a store and a notifier that answer, the loop creates one alert for
    each matching rule, in the order of the rules. *)
Lemma for_rules_all_succeed (reading : Reading.t) (io : option Io.server) (metric : Metric.t)
      (rules : list AlertRule.t) :
  (forall h d, exists a, Prisma.alert_create prisma h d = Ok a) ->
  (forall server h room name a, io = Some server -> Io.to_emit server h room name a = Ok tt) ->
  forall h,
  exists evs,
    for_rules prisma reading io metric rules h = (Ok tt, (h ++ evs)%list)
    /\ creates evs = map (fun rule => alertData reading rule metric)
                        (filter (matches reading) rules)
    /\ persisted_data evs = creates evs
    /\ List.length (persisted evs) = List.length (creates evs).
Proof.
  intros Hcreate Hemit.
  induction rules as [|rule rest IH]; intros h.
  - exists []. cbn. unfold ret. now rewrite app_nil_r.
  - cbn [filter]. destruct (matches reading rule) eqn:Hm.
    2:{ rewrite (for_rules_skip _ _ _ _ _ Hm). apply IH. }
    pose proof (proj1 (matches_conditionMet _ _) Hm) as Hc.
    cbn [for_rules]. rewrite Hc. run.
    destruct (Hcreate h (alertData reading rule metric)) as [a Ha]. rewrite Ha.
    destruct io as [server|].
    + destruct (truthy _).
      * rewrite (Hemit server _ _ _ _ eq_refl).
        destruct (IH ((h ++ [AlertCreate (alertData reading rule metric) (Ok a)])
                        ++ [IoEmit (user_room (Device.owner_id (Metric.device metric)))
                                   "new_alert" a (Ok tt)])%list)
          as (evs & Hrun & Hcr & Hpd & Hlen).
        eexists. split; [rewrite Hrun, <- !app_assoc; reflexivity|].
        unfold creates, persisted_data, persisted in *. cbn [flat_map app map List.length].
        rewrite Hcr in *. rewrite Hpd, Hlen. auto.
      * destruct (IH (h ++ [AlertCreate (alertData reading rule metric) (Ok a)])%list)
          as (evs & Hrun & Hcr & Hpd & Hlen).
        eexists. split; [rewrite Hrun, <- !app_assoc; reflexivity|].
        unfold creates, persisted_data, persisted in *. cbn [flat_map app map List.length].
        rewrite Hcr in *. rewrite Hpd, Hlen. auto.
    + destruct (IH (h ++ [AlertCreate (alertData reading rule metric) (Ok a)])%list)
        as (evs & Hrun & Hcr & Hpd & Hlen).
      eexists. split; [rewrite Hrun, <- !app_assoc; reflexivity|].
      unfold creates, persisted_data, persisted in *. cbn [flat_map app map List.length].
      rewrite Hcr in *. rewrite Hpd, Hlen. auto.
Qed.

End EngineFacts.

(** ** Reading the histories of a run *)

Section TraceFacts.

Variable JSON_parse : string -> result (option (list AlertRule.t)).
Variable reading : Reading.t.
Variable io : option Io.server.

Ltac projections :=
  unfold emits, persisted, persisted_data, creates, store_queries, resolved_metric in *;
  rewrite ?flat_map_app in *; cbn [flat_map app hd_error] in *.

(** *** A failed call is the last call, and its error is the outcome *)

Lemma loop_failure_last metric rules evs r :
  loop_trace reading io metric rules evs r ->
  forall ev e, In ev evs -> failure ev = Some e -> r = Thrown e.
Proof.
  induction 1; intros ev e' Hin Hf; cbn [In] in Hin;
    repeat match goal with
           | H : _ \/ _ |- _ => destruct H
           | H : False |- _ => destruct H
           end; subst; cbn [failure] in Hf; try congruence; eauto.
Qed.

Lemma eval_failure_last rules evs r :
  eval_trace reading io rules evs r ->
  forall ev e, In ev evs -> failure ev = Some e -> r = Thrown e.
Proof.
  destruct 1 as [e0| |metric evs r Hl]; intros ev e Hin Hf; cbn [In] in Hin;
    repeat match goal with
           | H : _ \/ _ |- _ => destruct H
           | H : False |- _ => destruct H
           end; subst; cbn [failure] in Hf; try congruence.
  eapply loop_failure_last; eauto.
Qed.

Lemma store_failure_last evs (r : result (list AlertRule.t)) :
  store_trace reading evs r ->
  forall ev e, In ev evs -> failure ev = Some e -> r = Thrown e.
Proof.
  destruct 1; intros ev e' Hin Hf; cbn [In] in Hin;
    repeat match goal with
           | H : _ \/ _ |- _ => destruct H
           | H : False |- _ => destruct H
           end; subst; cbn [failure] in Hf; congruence.
Qed.

Lemma fetch_failure_last evs (r : result (list AlertRule.t)) :
  fetch_trace JSON_parse reading evs r ->
  forall ev e, In ev evs -> failure ev = Some e -> r = Thrown e.
Proof.
  destruct 1 as [e0|c text e0 Hp|c text rules Hp|cached evs r Hc Hs];
    intros ev e Hin Hf; cbn [In] in Hin;
    repeat match goal with
           | H : _ \/ _ |- _ => destruct H
           | H : False |- _ => destruct H
           end; subst; cbn [failure] in Hf; try congruence.
  eapply store_failure_last; eauto.
Qed.

Lemma body_failure_last evs r :
  body_trace JSON_parse reading io evs r ->
  forall ev e, In ev evs -> failure ev = Some e -> r = Thrown e.
Proof.
  destruct 1 as [evs e0 Hf|fetched rules evs r Hf He]; intros ev e Hin Hfail.
  - pose proof (fetch_failure_last _ _ Hf _ _ Hin Hfail) as E. now injection E as ->.
  - apply in_app_or in Hin as [Hin | Hin].
    + pose proof (fetch_failure_last _ _ Hf _ _ Hin Hfail). discriminate.
    + eapply eval_failure_last; eauto.
Qed.

(** *** Publishes *)


Lemma loop_no_metric_event metric rules evs r :
  loop_trace reading io metric rules evs r ->
  resolved_metric evs = None /\ store_queries evs = [].
Proof.
  induction 1; projections; auto.
Qed.

Lemma store_projections evs (r : result (list AlertRule.t)) :
  store_trace reading evs r ->
  emits evs = [] /\ persisted evs = [] /\ creates evs = [] /\ resolved_metric evs = None
  /\ store_queries evs = [Reading.metric_id reading].
Proof. destruct 1; projections; auto. Qed.

Lemma fetch_projections evs (r : result (list AlertRule.t)) :
  fetch_trace JSON_parse reading evs r ->
  emits evs = [] /\ persisted evs = [] /\ creates evs = []
  /\ flat_map (fun ev => match ev with
                         | MetricFindUnique _ (Ok (Some m)) => [m]
                         | _ => []
                         end) evs = [].
Proof.
  destruct 1 as [e0|c text e0 Hp|c text rules Hp|cached evs r Hc Hs]; projections; auto.
  destruct Hs; projections; auto.
Qed.

Lemma pfp_nil : publish_follows_persist [].
Proof. intros [|x pre] post room name a r H; discriminate. Qed.

Lemma pfp_cons ev evs :
  (forall room name a r, ev <> IoEmit room name a r) ->
  publish_follows_persist evs ->
  publish_follows_persist (ev :: evs).
Proof.
  intros Hev Hp [|x pre] post room name a r H; cbn [app] in H.
  - injection H as H _. now apply Hev in H.
  - injection H as Hx H. subst x.
    destruct (Hp _ _ _ _ _ _ H) as (pre' & d & ->).
    now exists (ev :: pre'), d.
Qed.

Lemma pfp_pair d a room name r evs :
  publish_follows_persist evs ->
  publish_follows_persist (AlertCreate d (Ok a) :: IoEmit room name a r :: evs).
Proof.
  intros Hp [|x [|y pre]] post room' name' a' r' H; cbn [app] in H.
  - discriminate.
  - inversion H; subst. now exists [], d.
  - inversion H as [[Hx Hy H']]; subst x y.
    destruct (Hp _ _ _ _ _ _ H') as (pre' & d' & ->).
    now exists (AlertCreate d (Ok a) :: IoEmit room name a r :: pre'), d'.
Qed.

Lemma pfp_app_l evs1 evs2 :
  emits evs1 = [] ->
  publish_follows_persist evs2 ->
  publish_follows_persist (evs1 ++ evs2).
Proof.
  intros He Hp. induction evs1 as [|ev evs1 IH]; [exact Hp|].
  cbn [app]. apply pfp_cons.
  - intros room name a r ->. projections. discriminate.
  - apply IH. projections. destruct ev; cbn in He; try exact He. discriminate.
Qed.

Lemma pfp_snoc evs message e :
  publish_follows_persist evs ->
  publish_follows_persist (evs ++ [ConsoleError message e]).
Proof.
  intros Hp pre post room name a r H.
  destruct post as [|y post] using rev_ind.
  - apply app_inj_tail in H as [_ H]. discriminate.
  - clear IHpost. rewrite app_comm_cons, app_assoc in H.
    apply app_inj_tail in H as [H _].
    exact (Hp _ _ _ _ _ _ H).
Qed.

Lemma loop_pfp metric rules evs r :
  loop_trace reading io metric rules evs r -> publish_follows_persist evs.
Proof.
  induction 1; auto using pfp_nil, pfp_pair.
  - apply pfp_cons; [discriminate | apply pfp_nil].
  - apply pfp_cons; [discriminate | assumption].
Qed.

Lemma body_pfp evs r :
  body_trace JSON_parse reading io evs r -> publish_follows_persist evs.
Proof.
  destruct 1 as [evs e0 Hf|fetched rules evs r Hf He].
  - rewrite <- (app_nil_r evs).
    apply pfp_app_l; [apply (fetch_projections _ _ Hf) | apply pfp_nil].
  - apply pfp_app_l; [apply (fetch_projections _ _ Hf)|].
    destruct He as [e0| |metric evs r Hl].
    + apply pfp_cons; [discriminate | apply pfp_nil].
    + apply pfp_cons; [discriminate | apply pfp_nil].
    + apply pfp_cons; [discriminate | eapply loop_pfp; eauto].
Qed.


(** The creates of the loop are a beginning of the alerts of the matching
    rules, and all of them when the loop was not left by an exception. *)
Lemma loop_creates_prefix metric rules evs r :
  loop_trace reading io metric rules evs r ->
  exists rest,
    map (fun rule => alertData reading rule metric) (filter (matches reading) rules)
    = (creates evs ++ rest)%list
    /\ (r = Ok tt -> rest = []).
Proof.
  induction 1 as
      [ | rule rest0 evs r Hm Htr IH | rule rest0 e Hm | rule rest0 a evs r Hm Hg Htr IH
        | rule rest0 a evs r Hm Hg Htr IH | rule rest0 a e Hm Hg ];
    cbn [filter]; rewrite ?Hm; unfold creates in *; cbn [flat_map app map].
  - exists []. split; reflexivity.
  - exact IH.
  - eexists. split; [reflexivity | discriminate].
  - destruct IH as (rest & Heq & Hok). exists rest. rewrite Heq. now split.
  - destruct IH as (rest & Heq & Hok). exists rest. rewrite Heq. now split.
  - eexists. split; [reflexivity | discriminate].
Qed.

(** The loop throws nothing of its own: an exception that leaves it is the
    failure of a call it made. *)
Lemma loop_thrown_is_a_failed_call metric rules evs r :
  loop_trace reading io metric rules evs r ->
  forall e, r = Thrown e -> exists ev, In ev evs /\ failure ev = Some e.
Proof.
  induction 1 as
      [ | rule rest0 evs r Hm Htr IH | rule rest0 e0 Hm | rule rest0 a evs r Hm Hg Htr IH
        | rule rest0 a evs r Hm Hg Htr IH | rule rest0 a e0 Hm Hg ];
    intros e He.
  - discriminate.
  - exact (IH e He).
  - injection He as <-. eexists. split; [now left | reflexivity].
  - destruct (IH e He) as (ev & Hin & Hf). exists ev. split; [now right | exact Hf].
  - destruct (IH e He) as (ev & Hin & Hf). exists ev. split; [now do 2 right | exact Hf].
  - injection He as <-. eexists. split; [right; now left | reflexivity].
Qed.

End TraceFacts.

(** ** The claims on [checkRules] *)

Section Claims.

Variable redisClient : Redis.client.
Variable prisma : Prisma.client.
Variable JSON_parse : string -> result (option (list AlertRule.t)).

(** A run: it returns normally, a failed call is followed by the log entry
    of its error, and publishes follow their creates. *)
Lemma checkRules_summary (reading : Reading.t) (io : option Io.server) (h : history) :
  exists evs,
    checkRules redisClient prisma JSON_parse reading io h = (Ok tt, (h ++ evs)%list)
    /\ (forall ev e,
           In ev evs -> failure ev = Some e ->
           exists evs',
             evs = (evs' ++ [ConsoleError
                               ("Error in checkRules for reading " ++ Reading.id reading ++ ":")
                               e])%list)
    /\ publish_follows_persist evs.
Proof.
  destruct (checkRules_run redisClient prisma JSON_parse reading io h)
    as (evs & r & Htr & Hbody & Hrun).
  eexists. split; [exact Hrun|]. split.
  - intros ev e Hin Hf.
    apply in_app_or in Hin as [Hin | Hin].
    + rewrite (body_failure_last _ _ _ _ _ Htr _ _ Hin Hf). now exists evs.
    + destruct r as [[]|e0]; [destruct Hin|].
      destruct Hin as [<- | []]. discriminate.
  - destruct r as [[]|e].
    + rewrite app_nil_r. eapply body_pfp; eauto.
    + apply pfp_snoc. eapply body_pfp; eauto.
Qed.

(** C5.  [checkRules] never raises: whatever the cache, the store, the
    parser and the notifier answer, it returns normally.  A collaborator
    call that failed, and any error thrown in the [try] block, is logged
    with [console.error], in a message that carries the reading's id. *)
Theorem checkRules_never_raises (reading : Reading.t) (io : option Io.server) (h : history) :
  exists evs,
    checkRules redisClient prisma JSON_parse reading io h = (Ok tt, (h ++ evs)%list)
    /\ (forall ev e,
           In ev evs -> failure ev = Some e ->
           exists evs',
             evs = (evs' ++ [ConsoleError
                               ("Error in checkRules for reading " ++ Reading.id reading ++ ":")
                               e])%list)
    /\ (forall e h',
           checkRules_body redisClient prisma JSON_parse reading io h = (Thrown e, h') ->
           exists evs',
             evs = (evs' ++ [ConsoleError
                               ("Error in checkRules for reading " ++ Reading.id reading ++ ":")
                               e])%list).
Proof.
  destruct (checkRules_run redisClient prisma JSON_parse reading io h)
    as (evs & r & Htr & Hbody & Hrun).
  eexists. split; [exact Hrun|]. split.
  - intros ev e Hin Hf.
    apply in_app_or in Hin as [Hin | Hin].
    + rewrite (body_failure_last _ _ _ _ _ Htr _ _ Hin Hf). now exists evs.
    + destruct r as [[]|e0]; [destruct Hin|].
      destruct Hin as [<- | []]. discriminate.
  - intros e h' Hb. rewrite Hbody in Hb. injection Hb as -> _. now exists evs.
Qed.


Lemma publish_is_of_persisted (evs : list event) room name a r :
  publish_follows_persist evs ->
  In (IoEmit room name a r) evs -> In a (persisted evs).
Proof.
  intros Hp Hin. apply in_split in Hin as (pre & post & ->).
  destruct (Hp _ _ _ _ _ _ eq_refl) as (pre' & d & ->).
  unfold persisted. rewrite !flat_map_app. cbn [flat_map].
  apply in_or_app. left. apply in_or_app. right. now left.
Qed.

(** X9.  A publish that throws, whatever the collaborators: it does not
    raise to the caller, the error is logged with the reading's id, and the
    alert whose publish failed stays persisted. *)
Lemma publish_failure_is_contained (reading : Reading.t) (io : option Io.server)
        (h evs : history) (r : result unit) room name a e :
  checkRules redisClient prisma JSON_parse reading io h = (r, (h ++ evs)%list) ->
  In (IoEmit room name a (Thrown e)) evs ->
  r = Ok tt
  /\ In (ConsoleError ("Error in checkRules for reading " ++ Reading.id reading ++ ":") e) evs
  /\ In a (persisted evs).
Proof.
  intros Hrun Hin.
  destruct (checkRules_summary reading io h) as (evs0 & Hrun0 & Hfail & Hpfp).
  rewrite Hrun0 in Hrun. injection Hrun as <- Hevs.
  apply app_inv_head in Hevs. subst evs0.
  split; [reflexivity|]. split.
  - destruct (Hfail _ _ Hin eq_refl) as (evs' & ->).
    apply in_or_app. right. now left.
  - eapply publish_is_of_persisted; eauto.
Qed.

(** X10.  What a cache failure does, whatever the collaborators: it does not
    raise to the caller, and it ends the evaluation of the reading.  A failed cache
    read is logged and nothing else is called (the store is not queried); a
    failed cache write, after the store answered, is logged and no rule is
    evaluated. *)
Lemma cache_failure_stops_evaluation (reading : Reading.t) (io : option Io.server)
        (h : history) :
  (forall e,
      Redis.get redisClient h ("alert_rules:" ++ Reading.metric_id reading) = Thrown e ->
      checkRules redisClient prisma JSON_parse reading io h
      = (Ok tt,
         (h ++ [RedisGet ("alert_rules:" ++ Reading.metric_id reading) (Thrown e);
                ConsoleError ("Error in checkRules for reading " ++ Reading.id reading ++ ":")
                  e])%list))
  /\ (forall cached rules e,
         Redis.get redisClient h ("alert_rules:" ++ Reading.metric_id reading) = Ok cached ->
         cache_miss JSON_parse cached ->
         Prisma.alertRule_findMany prisma
           (h ++ [RedisGet ("alert_rules:" ++ Reading.metric_id reading) (Ok cached)])%list
           (Reading.metric_id reading) = Ok rules ->
         Redis.set redisClient
           (h ++ [RedisGet ("alert_rules:" ++ Reading.metric_id reading) (Ok cached);
                  AlertRuleFindMany (Reading.metric_id reading) (Ok rules)])%list
           ("alert_rules:" ++ Reading.metric_id reading) (JSON.stringify rules)
           RULES_CACHE_TTL = Thrown e ->
         checkRules redisClient prisma JSON_parse reading io h
         = (Ok tt,
            (h ++ [RedisGet ("alert_rules:" ++ Reading.metric_id reading) (Ok cached);
                   AlertRuleFindMany (Reading.metric_id reading) (Ok rules);
                   RedisSet ("alert_rules:" ++ Reading.metric_id reading)
                     (JSON.stringify rules) RULES_CACHE_TTL (Thrown e);
                   ConsoleError
                     ("Error in checkRules for reading " ++ Reading.id reading ++ ":")
                     e])%list)).
Proof.
  split.
  - intros e Hget.
    unfold checkRules, try_catch, checkRules_body, fetch_rules, log_error.
    unfold bind, await. cbv beta zeta.
    rewrite Hget. now rewrite <- app_assoc.
  - intros cached rules e Hget Hmiss Hfind Hset.
    unfold checkRules.
    erewrite try_catch_log.
    2:{ rewrite (checkRules_body_miss _ _ _ _ _ _ _ Hget Hmiss). unfold bind.
        rewrite (query_store_set_failed _ _ _ _ _ rules e Hfind).
        - reflexivity.
        - rewrite <- app_assoc. exact Hset. }
    cbn [log_of]. rewrite <- !app_assoc. reflexivity.
Qed.

(** C7.  Read-through rule cache.  With an entry under
    ["alert_rules:" + metricId] that parses to a rule list, [checkRules]
    evaluates the reading with the parsed rules and sends no rule query to
    the store.  On a miss it sends exactly one rule query, for the reading's
    metric id, writes the serialized answer back under the same key with a
    TTL of 300 seconds, and evaluates the reading with that answer. *)
Theorem rule_cache_read_through (reading : Reading.t) (io : option Io.server) (h : history) :
  (forall c text rules,
      Redis.get redisClient h ("alert_rules:" ++ Reading.metric_id reading)
      = Ok (Some (String c text)) ->
      JSON_parse (String c text) = Ok (Some rules) ->
      checkRules redisClient prisma JSON_parse reading io h
      = try_catch (evaluate prisma reading io rules) (log_error reading)
          (h ++ [RedisGet ("alert_rules:" ++ Reading.metric_id reading)
                   (Ok (Some (String c text)))])%list
      /\ exists evs,
          checkRules redisClient prisma JSON_parse reading io h = (Ok tt, (h ++ evs)%list)
          /\ store_queries evs = [])
  /\ (forall cached,
         Redis.get redisClient h ("alert_rules:" ++ Reading.metric_id reading) = Ok cached ->
         cache_miss JSON_parse cached ->
         (exists evs,
             checkRules redisClient prisma JSON_parse reading io h = (Ok tt, (h ++ evs)%list)
             /\ store_queries evs = [Reading.metric_id reading])
         /\ (forall rules,
                Prisma.alertRule_findMany prisma
                  (h ++ [RedisGet ("alert_rules:" ++ Reading.metric_id reading) (Ok cached)])%list
                  (Reading.metric_id reading) = Ok rules ->
                Redis.set redisClient
                  (h ++ [RedisGet ("alert_rules:" ++ Reading.metric_id reading) (Ok cached);
                         AlertRuleFindMany (Reading.metric_id reading) (Ok rules)])%list
                  ("alert_rules:" ++ Reading.metric_id reading) (JSON.stringify rules) 300
                = Ok tt ->
                checkRules redisClient prisma JSON_parse reading io h
                = try_catch (evaluate prisma reading io rules) (log_error reading)
                    (h ++ [RedisGet ("alert_rules:" ++ Reading.metric_id reading) (Ok cached);
                           AlertRuleFindMany (Reading.metric_id reading) (Ok rules);
                           RedisSet ("alert_rules:" ++ Reading.metric_id reading)
                             (JSON.stringify rules) 300 (Ok tt)])%list)).
Proof.
  assert (Hlog : forall r, store_queries (log_of reading r) = [])
    by (intros [|]; reflexivity).
  assert (Heval : forall rules evs' r',
             eval_trace reading io rules evs' r' -> store_queries evs' = []).
  { intros rules evs' r' [e| |metric evs'' r'' Hl]; try reflexivity.
    apply (loop_no_metric_event _ _ _ _ _ _ Hl). }
  split.
  - intros c text rules Hget Hparse. split.
    + unfold checkRules. unfold try_catch.
      now rewrite (checkRules_body_hit _ _ _ _ _ _ _ _ _ Hget Hparse).
    + destruct (evaluate_trace prisma reading io rules
                  (h ++ [RedisGet ("alert_rules:" ++ Reading.metric_id reading)
                           (Ok (Some (String c text)))])%list)
        as (evs' & r' & Hrun' & Htr').
      eexists. split.
      * unfold checkRules. erewrite try_catch_log.
        2:{ rewrite (checkRules_body_hit _ _ _ _ _ _ _ _ _ Hget Hparse). exact Hrun'. }
        rewrite <- !app_assoc. reflexivity.
      * unfold store_queries in *. rewrite !flat_map_app, Hlog, (Heval _ _ _ Htr').
        reflexivity.
  - intros cached Hget Hmiss. split.
    + destruct (query_store_trace redisClient prisma reading
                  (h ++ [RedisGet ("alert_rules:" ++ Reading.metric_id reading) (Ok cached)])%list)
        as (evs1 & r1 & Hrun1 & Htr1).
      destruct (store_projections _ _ _ Htr1) as (_ & _ & _ & _ & Hq1).
      destruct r1 as [rules|e].
      * destruct (evaluate_trace prisma reading io rules
                    ((h ++ [RedisGet ("alert_rules:" ++ Reading.metric_id reading) (Ok cached)])
                       ++ evs1)%list)
          as (evs2 & r2 & Hrun2 & Htr2).
        eexists. split.
        -- unfold checkRules. erewrite try_catch_log.
           2:{ rewrite (checkRules_body_miss _ _ _ _ _ _ _ Hget Hmiss). unfold bind.
               rewrite Hrun1. exact Hrun2. }
           rewrite <- !app_assoc. reflexivity.
        -- unfold store_queries in *.
           rewrite !flat_map_app, Hlog, (Heval _ _ _ Htr2), Hq1. reflexivity.
      * eexists. split.
        -- unfold checkRules. erewrite try_catch_log.
           2:{ rewrite (checkRules_body_miss _ _ _ _ _ _ _ Hget Hmiss). unfold bind.
               rewrite Hrun1. reflexivity. }
           rewrite <- !app_assoc. reflexivity.
        -- unfold store_queries in *.
           rewrite !flat_map_app, Hq1. reflexivity.
    + intros rules Hfind Hset.
      unfold checkRules, try_catch.
      rewrite (checkRules_body_miss _ _ _ _ _ _ _ Hget Hmiss). unfold bind.
      rewrite (query_store_ok _ _ _ _ _ rules Hfind).
      * rewrite <- !app_assoc. reflexivity.
      * rewrite <- app_assoc. exact Hset.
Qed.

(** X24.  Alert creation when every call answers.  When the rules are
    fetched, the metric resolves, every create resolves and every publish
    returns, [checkRules] creates one alert for each rule whose
    condition holds and for no other rule, in the order of the rules, with
    status [new], the rule's level and threshold, the metric and reading
    ids, and the message rendered from the rule's template; each of them is
    persisted.  A reading that satisfies no rule creates no alert.  A
    reading of 35.5 with the single rule [> 30], level [critical], template
    [{metricName} is {value}, exceeding {threshold}], on a metric named
    Temperature creates one alert, with level [critical], status [new],
    threshold 30 and message [Temperature is 35.5, exceeding 30]. *)
Theorem alert_creation_postcondition (reading : Reading.t) (io : option Io.server)
        (h h1 : history) (rules : list AlertRule.t) (metric : Metric.t) :
  fetch_rules redisClient prisma JSON_parse (Reading.metric_id reading)
    ("alert_rules:" ++ Reading.metric_id reading) h = (Ok rules, h1) ->
  Prisma.metric_findUnique prisma h1 (Reading.metric_id reading) = Ok (Some metric) ->
  (forall h' d, exists a, Prisma.alert_create prisma h' d = Ok a) ->
  (forall server h' room name a, io = Some server -> Io.to_emit server h' room name a = Ok tt) ->
  exists evs,
    checkRules redisClient prisma JSON_parse reading io h
    = (Ok tt,
       (h1 ++ MetricFindUnique (Reading.metric_id reading) (Ok (Some metric)) :: evs)%list)
    /\ creates evs
       = map (fun rule =>
                {| AlertData.metric_id := Reading.metric_id reading;
                   AlertData.reading_id := Reading.id reading;
                   AlertData.level := AlertRule.level rule;
                   AlertData.status := "new";
                   AlertData.threshold := AlertRule.threshold rule;
                   AlertData.message :=
                     generateMessage (AlertRule.message_template rule) (Metric.name metric)
                       (Reading.value reading) (AlertRule.threshold rule) |})
             (filter (matches reading) rules)
    /\ persisted_data evs = creates evs
    /\ List.length (persisted evs) = List.length (filter (matches reading) rules)
    /\ ((forall rule, In rule rules -> matches reading rule = false) -> creates evs = [])
    /\ (forall rule,
           rules = [rule] ->
           Reading.value reading = Finite 355 (-1) ->
           Metric.name metric = "Temperature" ->
           AlertRule.condition rule = ">" ->
           AlertRule.threshold rule = of_Z 30 ->
           AlertRule.level rule = "critical" ->
           AlertRule.message_template rule = "{metricName} is {value}, exceeding {threshold}" ->
           exists d,
             creates evs = [d]
             /\ AlertData.level d = "critical"
             /\ AlertData.status d = "new"
             /\ AlertData.threshold d = of_Z 30
             /\ AlertData.message d = "Temperature is 35.5, exceeding 30").
Proof.
  intros Hfetch Hmetric Hcreate Hemit.
  destruct (for_rules_all_succeed prisma reading io metric rules Hcreate Hemit
              (h1 ++ [MetricFindUnique (Reading.metric_id reading) (Ok (Some metric))])%list)
    as (evs & Hrun & Hcr & Hpd & Hlen).
  exists evs. split; [|split; [exact Hcr | split; [exact Hpd | split; [|split]]]].
  - unfold checkRules. erewrite try_catch_log.
    2:{ unfold checkRules_body, bind at 1. rewrite Hfetch.
        unfold evaluate, bind, await. cbv beta zeta. rewrite Hmetric. exact Hrun. }
    cbn [log_of]. rewrite app_nil_r, <- app_assoc. reflexivity.
  - rewrite Hlen, Hcr. now rewrite length_map.
  - intros Hnone. rewrite Hcr.
    replace (filter (matches reading) rules) with (@nil AlertRule.t); [reflexivity|].
    symmetry. clear -Hnone. induction rules as [|rule rest IH]; [reflexivity|].
    cbn [filter]. rewrite (Hnone rule (or_introl eq_refl)).
    apply IH. intros r Hr. apply Hnone. now right.
  - intros rule Hrules Hv Hn Hc Ht Hl Htpl.
    exists (alertData reading rule metric).
    assert (Hm : matches reading rule = true).
    { unfold matches. rewrite Hc, Ht, Hv. reflexivity. }
    rewrite Hcr, Hrules. cbn [filter map]. rewrite Hm.
    split; [reflexivity|].
    unfold alertData. cbn [AlertData.level AlertData.status AlertData.threshold AlertData.message].
    rewrite Hl, Ht, Htpl, Hn, Hv. repeat split.
Qed.

(** C6.  Condition evaluation.  The six operators of the [switch] are the
    six comparisons of the reading's value with the threshold: on finite
    numbers the comparisons of the rationals they denote, with the
    infinities above and below every finite number, and false on [NaN]
    but for [!=].  Any other operator string sets no condition and throws
    nothing: the rule is passed over and the rules around it are evaluated.
    Whatever the store and the notifier answer, the creates of the loop are
    a beginning of the alerts of the matching rules before and after the
    malformed rule, all of them when the loop returns, and an exception
    that leaves the loop is the failure of a create or of a publish; when
    the store and the notifier answer, every matching rule before and after
    the malformed rule has its alert created and persisted. *)
Theorem condition_evaluation (reading : Reading.t) (io : option Io.server) (metric : Metric.t) :
  (forall v t,
      conditionMet ">" v t = Some (gt v t)
      /\ conditionMet "<" v t = Some (lt v t)
      /\ conditionMet ">=" v t = Some (ge v t)
      /\ conditionMet "<=" v t = Some (le v t)
      /\ conditionMet "==" v t = Some (strict_eq v t)
      /\ conditionMet "!=" v t = Some (strict_neq v t))
  /\ (forall m1 e1 m2 e2,
         (gt (Finite m1 e1) (Finite m2 e2) = true <-> (Qvalue m2 e2 < Qvalue m1 e1)%Q)
         /\ (lt (Finite m1 e1) (Finite m2 e2) = true <-> (Qvalue m1 e1 < Qvalue m2 e2)%Q)
         /\ (ge (Finite m1 e1) (Finite m2 e2) = true <-> (Qvalue m2 e2 <= Qvalue m1 e1)%Q)
         /\ (le (Finite m1 e1) (Finite m2 e2) = true <-> (Qvalue m1 e1 <= Qvalue m2 e2)%Q)
         /\ (strict_eq (Finite m1 e1) (Finite m2 e2) = true
             <-> (Qvalue m1 e1 == Qvalue m2 e2)%Q)
         /\ (strict_neq (Finite m1 e1) (Finite m2 e2) = true
             <-> ~ (Qvalue m1 e1 == Qvalue m2 e2)%Q))
  /\ (forall condition v t, ~ supported condition -> conditionMet condition v t = None)
  /\ (forall before bad after h,
         ~ supported (AlertRule.condition bad) ->
         for_rules prisma reading io metric (before ++ bad :: after) h
         = for_rules prisma reading io metric (before ++ after) h)
  /\ (forall x,
         (gt NaN x = false /\ lt NaN x = false /\ ge NaN x = false /\ le NaN x = false
          /\ strict_eq NaN x = false /\ strict_neq NaN x = true)
         /\ (gt x NaN = false /\ lt x NaN = false /\ ge x NaN = false /\ le x NaN = false
             /\ strict_eq x NaN = false /\ strict_neq x NaN = true))
  /\ (forall m e,
         gt (Infinity false) (Finite m e) = true
         /\ lt (Finite m e) (Infinity false) = true
         /\ lt (Infinity true) (Finite m e) = true
         /\ gt (Finite m e) (Infinity true) = true
         /\ gt (Infinity false) (Infinity true) = true
         /\ strict_eq (Infinity false) (Infinity false) = true
         /\ strict_eq (Infinity true) (Infinity true) = true)
  /\ (forall before bad after h,
         ~ supported (AlertRule.condition bad) ->
         exists evs r rest,
           for_rules prisma reading io metric (before ++ bad :: after) h
           = (r, (h ++ evs)%list)
           /\ (map (fun rule => alertData reading rule metric)
                   (filter (matches reading) before)
               ++ map (fun rule => alertData reading rule metric)
                      (filter (matches reading) after))%list
              = (creates evs ++ rest)%list
           /\ (r = Ok tt -> rest = [])
           /\ (forall e, r = Thrown e -> exists ev, In ev evs /\ failure ev = Some e))
  /\ (forall before bad after h,
         ~ supported (AlertRule.condition bad) ->
         (forall h' d, exists a, Prisma.alert_create prisma h' d = Ok a) ->
         (forall server h' room name a,
             io = Some server -> Io.to_emit server h' room name a = Ok tt) ->
         exists evs,
           for_rules prisma reading io metric (before ++ bad :: after) h
           = (Ok tt, (h ++ evs)%list)
           /\ creates evs
              = (map (fun rule => alertData reading rule metric)
                     (filter (matches reading) before)
                 ++ map (fun rule => alertData reading rule metric)
                        (filter (matches reading) after))%list
           /\ persisted_data evs = creates evs).
Proof.
  split; [|split; [|split; [|split; [|split; [|split; [|split]]]]]].
  - intros v t. repeat split.
  - intros m1 e1 m2 e2. apply JsNumberFacts.comparisons_finite.
  - intros condition v t. apply conditionMet_unsupported.
  - intros before bad after h. apply for_rules_malformed.
  - intros x. split; [repeat split|].
    destruct x as [|negative|m e]; repeat split.
  - intros m e. repeat split.
  - intros before bad after h Hbad.
    rewrite (for_rules_malformed prisma reading io metric before bad after h Hbad).
    destruct (for_rules_trace prisma reading io metric (before ++ after)%list h)
      as (evs & r & Hrun & Htr).
    destruct (loop_creates_prefix reading io metric _ _ _ Htr) as (rest & Heq & Hok).
    exists evs, r, rest. split; [exact Hrun|]. split; [|split; [exact Hok|]].
    + now rewrite <- Heq, filter_app, map_app.
    + exact (loop_thrown_is_a_failed_call reading io metric _ _ _ Htr).
  - intros before bad after h Hbad Hcreate Hemit.
    rewrite (for_rules_malformed prisma reading io metric before bad after h Hbad).
    destruct (for_rules_all_succeed prisma reading io metric (before ++ after)%list
                Hcreate Hemit h) as (evs & Hrun & Hcr & Hpd & _).
    exists evs. split; [exact Hrun|]. split; [|exact Hpd].
    now rewrite Hcr, filter_app, map_app.
Qed.

(** X11.  The rule cache across two calls, on a cache that keeps what is
    written to it and a parser that reads the stored rules back from their JSON
    text: the first call for a metric misses, queries the store once and
    fills the cache; the second call reads the cache and sends no query. *)
Lemma second_call_reads_cache (reading : Reading.t) (io : option Io.server)
      (h : history) (rules : list AlertRule.t) :
  JSON_parse (JSON.stringify rules) = Ok (Some rules) ->
  last_set ("alert_rules:" ++ Reading.metric_id reading) h = None ->
  Prisma.alertRule_findMany prisma
    (h ++ [RedisGet ("alert_rules:" ++ Reading.metric_id reading) (Ok None)])%list
    (Reading.metric_id reading) = Ok rules ->
  exists evs1 evs2,
    checkRules redis_memory prisma JSON_parse reading io h = (Ok tt, (h ++ evs1)%list)
    /\ store_queries evs1 = [Reading.metric_id reading]
    /\ checkRules redis_memory prisma JSON_parse reading io (h ++ evs1)%list
       = (Ok tt, ((h ++ evs1) ++ evs2)%list)
    /\ store_queries evs2 = [].
Proof.
  intros Hround Hempty Hfind.
  set (key := "alert_rules:" ++ Reading.metric_id reading) in *.
  assert (Hlog : forall r, store_queries (log_of reading r) = []
                           /\ cache_writes (log_of reading r) = [])
    by (intros [|]; split; reflexivity).
  assert (Heval : forall rs evs' r',
             eval_trace reading io rs evs' r' ->
             store_queries evs' = [] /\ cache_writes evs' = []).
  { intros rs evs' r' [e| |metric evs'' r'' Hl]; try (split; reflexivity).
    split; [apply (loop_no_metric_event _ _ _ _ _ _ Hl)|].
    clear -Hl. induction Hl; unfold cache_writes in *; cbn [flat_map app]; auto. }
  assert (Hkeep : forall evs found,
             cache_writes evs = [] ->
             fold_left
               (fun found ev =>
                  match ev with
                  | RedisSet k value _ (Ok _) => if String.eqb k key then Some value else found
                  | _ => found
                  end) evs found = found).
  { induction evs as [|ev evs IH]; intros found Hw; [reflexivity|].
    cbn [fold_left]. unfold cache_writes in *. cbn [flat_map] in Hw.
    destruct ev; cbn [app] in Hw; try discriminate; now apply IH. }
  (* first call *)
  set (h1 := (h ++ [RedisGet key (Ok None);
                    AlertRuleFindMany (Reading.metric_id reading) (Ok rules);
                    RedisSet key (JSON.stringify rules) RULES_CACHE_TTL (Ok tt)])%list).
  destruct (evaluate_trace prisma reading io rules h1) as (evsA & rA & HrunA & HtrA).
  destruct (Heval _ _ _ HtrA) as [HqA HwA].
  assert (Hrun1 :
    checkRules redis_memory prisma JSON_parse reading io h
    = (Ok tt, (h ++ ([RedisGet key (Ok None);
                      AlertRuleFindMany (Reading.metric_id reading) (Ok rules);
                      RedisSet key (JSON.stringify rules) RULES_CACHE_TTL (Ok tt)]
                       ++ evsA ++ log_of reading rA))%list)).
  { unfold checkRules. erewrite try_catch_log.
    2:{ rewrite (checkRules_body_miss redis_memory prisma JSON_parse reading io h None).
        - unfold bind. rewrite (query_store_ok redis_memory prisma _ _ _ rules Hfind eq_refl).
          rewrite <- app_assoc. exact HrunA.
        - cbn [redis_memory Redis.get]. fold key. now rewrite Hempty.
        - exact I. }
    subst h1. rewrite <- !app_assoc. reflexivity. }
  (* second call *)
  set (h2 := (h ++ ([RedisGet key (Ok None);
                     AlertRuleFindMany (Reading.metric_id reading) (Ok rules);
                     RedisSet key (JSON.stringify rules) RULES_CACHE_TTL (Ok tt)]
                      ++ evsA ++ log_of reading rA))%list) in *.
  assert (Hget : Redis.get redis_memory h2 key = Ok (Some (JSON.stringify rules))).
  { cbn [redis_memory Redis.get]. f_equal. unfold last_set, h2.
    rewrite fold_left_app. fold (last_set key h). rewrite Hempty.
    cbn [fold_left app]. rewrite String.eqb_refl.
    rewrite fold_left_app, !Hkeep; auto. apply (Hlog rA). }
  assert (Htext : JSON.stringify rules
                  = String "[" (JSON.join "," (map JSON.of_rule rules) ++ "]"))
    by reflexivity.
  rewrite Htext in Hget.
  pose proof Hround as Hparse. rewrite Htext in Hparse.
  destruct (evaluate_trace prisma reading io rules
              (h2 ++ [RedisGet key (Ok (Some (String "["
                        (JSON.join "," (map JSON.of_rule rules) ++ "]"))))])%list)
    as (evsB & rB & HrunB & HtrB).
  eexists _, _. split; [exact Hrun1|]. split; [|split].
  - unfold store_queries in *. cbn [flat_map app]. rewrite !flat_map_app, HqA.
    now rewrite (proj1 (Hlog rA)).
  - fold h2. unfold checkRules. erewrite try_catch_log.
    2:{ rewrite (checkRules_body_hit redis_memory prisma JSON_parse reading io h2
                   _ _ rules Hget Hparse).
        exact HrunB. }
    rewrite <- !app_assoc. reflexivity.
  - unfold store_queries in *. cbn [flat_map app]. rewrite !flat_map_app.
    rewrite (proj1 (Heval _ _ _ HtrB)). now rewrite (proj1 (Hlog rB)).
Qed.

End Claims.

(** ** The claims on the scenarios of the unit tests *)

Section Scenarios.
Import Fixtures.

(** C1 (the code departs from the claim).  The unit test "should continue
    processing other rules when one fails" puts two matching rules in the
    cache and rejects the first create.  The rejected create leaves the
    loop for the [catch] block: the error is logged and the second rule is
    never evaluated, so there is one create call where the test expects
    two. *)
Theorem create_failure_stops_the_loop :
  matches mockReading mockAlertRule = true
  /\ matches mockReading rule2 = true
  /\ run_first_create_fails
     = (Ok tt,
        [RedisGet "alert_rules:metric-123" (Ok (Some (JSON.stringify [mockAlertRule; rule2])));
         MetricFindUnique "metric-123" (Ok (Some mockMetric));
         AlertCreate (alertData mockReading mockAlertRule mockMetric)
           (Thrown "First alert creation failed");
         ConsoleError "Error in checkRules for reading reading-123:"
           "First alert creation failed"])
  /\ creates (snd run_first_create_fails) = [alertData mockReading mockAlertRule mockMetric]
  /\ persisted (snd run_first_create_fails) = []
  /\ creates (snd spec_first_create_fails)
     = [alertData mockReading mockAlertRule mockMetric;
        alertData mockReading rule2 mockMetric]
  /\ persisted (snd spec_first_create_fails)
     = [row (alertData mockReading rule2 mockMetric)].
Proof. repeat split; vm_compute; reflexivity. Qed.

(** C3 (the code departs from the claim).  With the cache read rejected and
    a matching rule in the store (the unit test "should handle redis
    connection error gracefully"), the rejection leaves the [try] block: the
    store is never queried and no alert is created, where an empty cache
    leads to the query and to the alert.  With the cache write rejected, the
    rules just queried are not evaluated.  The read endpoints of the server
    wrap the same two cache calls in [try {} catch {}] of their own and go
    on; [checkRules] does not. *)
Theorem cache_failure_blocks_retrieval :
  run_cache_down
  = (Ok tt,
     [RedisGet "alert_rules:metric-123" (Thrown "Redis connection failed");
      ConsoleError "Error in checkRules for reading reading-123:" "Redis connection failed"])
  /\ store_queries (snd run_cache_down) = []
  /\ creates (snd run_cache_down) = []
  /\ store_queries (snd run_cache_miss) = ["metric-123"]
  /\ creates (snd run_cache_miss) = [alertData mockReading mockAlertRule mockMetric]
  /\ store_queries (snd run_cache_readonly) = ["metric-123"]
  /\ creates (snd run_cache_readonly) = []
  /\ store_queries (snd spec_cache_down) = ["metric-123"]
  /\ creates (snd spec_cache_down) = [alertData mockReading mockAlertRule mockMetric]
  /\ creates (snd spec_cache_readonly) = [alertData mockReading mockAlertRule mockMetric].
Proof. repeat split; vm_compute; reflexivity. Qed.

(** C4 (the code departs from the claim).  With two matching rules and a
    notifier whose [emit] throws, the first alert is created and persisted
    and its publish attempted; the exception leaves the loop for the [catch]
    block and the second rule is never evaluated.  It is the defect of C1:
    the only [try] wraps the whole loop. *)
Theorem publish_failure_stops_the_loop :
  matches mockReading rule2 = true
  /\ creates (snd run_publish_fails) = [alertData mockReading mockAlertRule mockMetric]
  /\ persisted (snd run_publish_fails) = [row (alertData mockReading mockAlertRule mockMetric)]
  /\ ~ In (alertData mockReading rule2 mockMetric) (creates (snd run_publish_fails))
  /\ persisted (snd spec_publish_fails)
     = [row (alertData mockReading mockAlertRule mockMetric);
        row (alertData mockReading rule2 mockMetric)].
Proof.
  repeat split; try (vm_compute; reflexivity).
  vm_compute. intros [H | []]. discriminate H.
Qed.

(** C8 (the code departs from the claim).  For a reading whose metric
    resolves, not every rule whose condition holds produces a persisted
    alert.  With the rules [> 30], [< 10] and [> 25] for a reading of 35.5
    and a notifier whose [emit] throws, the first and the third rule hold,
    and the run persists the alert of the first only: the exception leaves
    the loop, which is the defect of C1 and C4, where the pipeline of the
    specification persists one alert for each of the two.  The claim's own
    example, the single rule [> 30] with a notifier that answers, creates
    and persists its one alert. *)
Theorem alert_creation_misses_matching_rule :
  filter (matches mockReading) [mockAlertRule; lowRule; rule2] = [mockAlertRule; rule2]
  /\ resolved_metric (snd run_three_rules_publish_fails) = Some mockMetric
  /\ fst run_three_rules_publish_fails = Ok tt
  /\ creates (snd run_three_rules_publish_fails)
     = [alertData mockReading mockAlertRule mockMetric]
  /\ persisted (snd run_three_rules_publish_fails)
     = [row (alertData mockReading mockAlertRule mockMetric)]
  /\ persisted (snd spec_three_rules_publish_fails)
     = [row (alertData mockReading mockAlertRule mockMetric);
        row (alertData mockReading rule2 mockMetric)]
  /\ persisted_data (snd run_single_rule)
     = [ {| AlertData.metric_id := "metric-123";
            AlertData.reading_id := "reading-123";
            AlertData.level := "critical";
            AlertData.status := "new";
            AlertData.threshold := of_Z 30;
            AlertData.message := "Temperature is 35.5, exceeding 30" |} ].
Proof. repeat split; vm_compute; reflexivity. Qed.

(** The rejected cache read of [run_cache_down] is logged. *)
Lemma checkRules_never_raises_example :
  exists evs,
    run_cache_down = (Ok tt, evs)
    /\ In (ConsoleError "Error in checkRules for reading reading-123:" "Redis connection failed")
         evs.
Proof.
  destruct (checkRules_never_raises redis_down (prisma_ok [mockAlertRule] (Some mockMetric))
              (parse_of [mockAlertRule]) mockReading (Some mockIo) [])
    as (evs & Hrun & Hfail & _).
  exists evs. split; [exact Hrun|].
  assert (E : evs = [RedisGet "alert_rules:metric-123" (Thrown "Redis connection failed");
                     ConsoleError "Error in checkRules for reading reading-123:"
                       "Redis connection failed"]).
  { vm_compute in Hrun. now injection Hrun. }
  destruct (Hfail (RedisGet "alert_rules:metric-123" (Thrown "Redis connection failed"))
              "Redis connection failed") as (evs' & ->).
  - rewrite E. now left.
  - reflexivity.
  - apply in_or_app. right. now left.
Defined.


(** The failed publish of [run_publish_fails] is logged and its alert is
    persisted. *)
Lemma publish_failure_is_contained_example :
  In (ConsoleError "Error in checkRules for reading reading-123:" "Socket.IO error")
     (snd run_publish_fails)
  /\ In (row (alertData mockReading mockAlertRule mockMetric))
        (persisted (snd run_publish_fails)).
Proof.
  destruct (publish_failure_is_contained
              (redis_hit [mockAlertRule; rule2]) (prisma_ok [] (Some mockMetric))
              (parse_of [mockAlertRule; rule2]) mockReading (Some throwingIo)
              [] (snd run_publish_fails) (Ok tt)
              "user:user-123" "new_alert"
              (row (alertData mockReading mockAlertRule mockMetric)) "Socket.IO error")
    as (_ & Hlog & Hpersisted).
  - vm_compute. reflexivity.
  - vm_compute. do 3 right. left. reflexivity.
  - split; assumption.
Defined.

(** [run_cache_down] and [run_cache_readonly] end at the failed cache call. *)
Lemma cache_failure_stops_evaluation_example :
  run_cache_down
  = (Ok tt,
     [RedisGet "alert_rules:metric-123" (Thrown "Redis connection failed");
      ConsoleError "Error in checkRules for reading reading-123:" "Redis connection failed"])
  /\ run_cache_readonly
     = (Ok tt,
        [RedisGet "alert_rules:metric-123" (Ok None);
         AlertRuleFindMany "metric-123" (Ok [mockAlertRule]);
         RedisSet "alert_rules:metric-123" (JSON.stringify [mockAlertRule]) 300
           (Thrown "Redis write failed");
         ConsoleError "Error in checkRules for reading reading-123:" "Redis write failed"]).
Proof.
  split.
  - exact (proj1 (cache_failure_stops_evaluation redis_down
                    (prisma_ok [mockAlertRule] (Some mockMetric))
                    (parse_of [mockAlertRule]) mockReading (Some mockIo) [])
                 "Redis connection failed" eq_refl).
  - exact (proj2 (cache_failure_stops_evaluation redis_readonly
                    (prisma_ok [mockAlertRule] (Some mockMetric))
                    (parse_of [mockAlertRule]) mockReading (Some mockIo) [])
                 None [mockAlertRule] "Redis write failed" eq_refl I eq_refl eq_refl).
Defined.

(** [run_single_rule] reads its rules from the cache and [run_cache_miss]
    from the store. *)
Lemma rule_cache_read_through_example :
  store_queries (snd run_single_rule) = []
  /\ store_queries (snd run_cache_miss) = ["metric-123"]
  /\ run_cache_miss
     = try_catch (evaluate (prisma_ok [mockAlertRule] (Some mockMetric)) mockReading
                    (Some mockIo) [mockAlertRule])
         (log_error mockReading)
         [RedisGet "alert_rules:metric-123" (Ok None);
          AlertRuleFindMany "metric-123" (Ok [mockAlertRule]);
          RedisSet "alert_rules:metric-123" (JSON.stringify [mockAlertRule]) 300 (Ok tt)].
Proof.
  destruct (rule_cache_read_through (redis_hit [mockAlertRule])
              (prisma_ok [] (Some mockMetric)) (parse_of [mockAlertRule])
              mockReading (Some mockIo) []) as [Hhit _].
  destruct (Hhit "["%char (JsString.drop 1 (JSON.stringify [mockAlertRule])) [mockAlertRule])
    as (_ & evs & Hrun & Hq).
  { vm_compute. reflexivity. }
  { vm_compute. reflexivity. }
  destruct (rule_cache_read_through redis_miss
              (prisma_ok [mockAlertRule] (Some mockMetric)) (parse_of [mockAlertRule])
              mockReading (Some mockIo) []) as [_ Hmiss].
  destruct (Hmiss None eq_refl I) as ((evs' & Hrun' & Hq') & Heval).
  split; [|split].
  - unfold run_single_rule. rewrite Hrun. exact Hq.
  - unfold run_cache_miss. rewrite Hrun'. exact Hq'.
  - exact (Heval [mockAlertRule] eq_refl eq_refl).
Defined.

(** A reading of 35.5 and the rule [> 30] on the metric Temperature. *)
Lemma alert_creation_example :
  exists evs,
    run_single_rule
    = (Ok tt,
       RedisGet "alert_rules:metric-123" (Ok (Some (JSON.stringify [mockAlertRule])))
         :: MetricFindUnique "metric-123" (Ok (Some mockMetric)) :: evs)
    /\ creates evs
       = [ {| AlertData.metric_id := "metric-123";
              AlertData.reading_id := "reading-123";
              AlertData.level := "critical";
              AlertData.status := "new";
              AlertData.threshold := of_Z 30;
              AlertData.message := "Temperature is 35.5, exceeding 30" |} ]
    /\ List.length (persisted evs) = 1%nat.
Proof.
  destruct (alert_creation_postcondition (redis_hit [mockAlertRule])
              (prisma_ok [] (Some mockMetric)) (parse_of [mockAlertRule])
              mockReading (Some mockIo) []
              [RedisGet "alert_rules:metric-123" (Ok (Some (JSON.stringify [mockAlertRule])))]
              [mockAlertRule] mockMetric)
    as (evs & Hrun & Hcreates & _ & Hlen & _ & _).
  - vm_compute. reflexivity.
  - reflexivity.
  - intros h' d. now exists (row d).
  - intros server h' room name a Hio. injection Hio as <-. reflexivity.
  - exists evs. split; [exact Hrun | split; [exact Hcreates | exact Hlen]].
Defined.

(** The rule ["???"] of the unit test, between two rules that the reading
    satisfies: it is passed over, and the rules before and after it have
    their alerts created. *)
Lemma condition_evaluation_example :
  conditionMet "???" (Finite 355 (-1)) (of_Z 30) = None
  /\ exists evs,
      for_rules (prisma_ok [] (Some mockMetric)) mockReading (Some mockIo) mockMetric
        ([mockAlertRule]
           ++ AlertRule.mk "rule-123" "metric-123" "???" (of_Z 30) "critical" "x"
           :: [rule2]) []
      = (Ok tt, evs)
      /\ creates evs
         = [alertData mockReading mockAlertRule mockMetric;
            alertData mockReading rule2 mockMetric]
      /\ persisted_data evs = creates evs.
Proof.
  assert (Hbad : ~ supported "???").
  { unfold supported. cbn [In]. intros H.
    repeat (destruct H as [H | H]; [discriminate H|]). exact H. }
  destruct (condition_evaluation (prisma_ok [] (Some mockMetric)) mockReading
              (Some mockIo) mockMetric) as (_ & _ & Hnone & _ & _ & _ & _ & Hsiblings).
  split.
  - exact (Hnone "???" _ _ Hbad).
  - destruct (Hsiblings [mockAlertRule]
                (AlertRule.mk "rule-123" "metric-123" "???" (of_Z 30) "critical" "x")
                [rule2] [] Hbad) as (evs & Hrun & Hcreates & Hpersisted).
    + intros h' d. now exists (row d).
    + intros server h' room name a Hio. injection Hio as <-. reflexivity.
    + exists evs. split; [exact Hrun|]. split; [exact Hcreates | exact Hpersisted].
Defined.

(** Two readings of the same metric in a row: the second one is evaluated
    from the cache. *)
Lemma second_call_reads_cache_example :
  exists evs1 evs2,
    checkRules redis_memory (prisma_ok [mockAlertRule] (Some mockMetric))
      (parse_of [mockAlertRule]) mockReading (Some mockIo) [] = (Ok tt, evs1)
    /\ store_queries evs1 = ["metric-123"]
    /\ checkRules redis_memory (prisma_ok [mockAlertRule] (Some mockMetric))
         (parse_of [mockAlertRule]) mockReading (Some mockIo) evs1
       = (Ok tt, (evs1 ++ evs2)%list)
    /\ store_queries evs2 = [].
Proof.
  destruct (second_call_reads_cache (prisma_ok [mockAlertRule] (Some mockMetric))
              (parse_of [mockAlertRule]) mockReading (Some mockIo) [] [mockAlertRule])
    as (evs1 & evs2 & Hrun1 & Hq1 & Hrun2 & Hq2).
  - vm_compute. reflexivity.
  - reflexivity.
  - reflexivity.
  - cbn [app] in Hrun1, Hrun2. exists evs1, evs2. repeat split; assumption.
Defined.

End Scenarios.

(** ** The unit tests of the renderer and of the number printer *)

Section UnitTests.
Import Fixtures.

Example toString_fraction : toString (Finite 355 (-1)) = "35.5".
Proof. reflexivity. Qed.

Example toString_integer : toString (of_Z 30) = "30".
Proof. reflexivity. Qed.

Example toString_negative : toString (Finite (-125) (-5)) = "-0.00125".
Proof. reflexivity. Qed.

Example toString_small : toString (Finite 15 (-8)) = "1.5e-7".
Proof. reflexivity. Qed.

Example toString_large : toString (Finite 1 21) = "1e+21".
Proof. reflexivity. Qed.

(** "should replace template variables correctly" *)
Example generateMessage_variables :
  generateMessage "{metricName} value {value} exceeds threshold {threshold}"
    "Temperature" (Finite 355 (-1)) (of_Z 30)
  = "Temperature value 35.5 exceeds threshold 30".
Proof. reflexivity. Qed.

(** "should handle empty template" *)
Example generateMessage_empty :
  generateMessage EmptyString "Temp" (of_Z 25) (of_Z 20) = EmptyString.
Proof. reflexivity. Qed.

(** "should preserve text without variables" *)
Example generateMessage_plain :
  generateMessage "Alert: High temperature detected" "Temperature" (of_Z 35) (of_Z 30)
  = "Alert: High temperature detected".
Proof. reflexivity. Qed.

(** A [$&] in the metric name is a replacement pattern: it stands for the
    matched placeholder. *)
Example generateMessage_dollar :
  generateMessage "{metricName}" "$&" (of_Z 5) (of_Z 7) = "{metricName}".
Proof. reflexivity. Qed.

(** "should not send socket notification when device has no owner": the
    alert is persisted and nothing is published. *)
Example run_without_owner_publishes_nothing :
  persisted (snd run_without_owner)
  = [row (alertData mockReading mockAlertRule metricWithoutOwner)]
  /\ emits (snd run_without_owner) = [].
Proof. split; vm_compute; reflexivity. Qed.

End UnitTests.

(** ** Templates as segments *)

Section Segments.
Import JsString JsStringFacts JsNumberFacts.

Lemma has_char_no_match (c : ascii) (p s : string) :
  has_char c s = false -> includes (String c p) s = false.
Proof.
  unfold includes. induction s as [|d s IH]; cbn [split_first starts_with has_char].
  - reflexivity.
  - intros H. apply orb_false_iff in H as [Hd Hs].
    rewrite Hd. cbn [andb]. specialize (IH Hs).
    destruct (split_first (String c p) s) as [[b a]|]; [discriminate | reflexivity].
Qed.

(** Text without the pattern's first character is passed over by the search. *)
Lemma split_first_skip_text (c : ascii) (p s rest : string) :
  has_char c s = false ->
  split_first (String c p) (s ++ rest)
  = match split_first (String c p) rest with
    | Some (before, after) => Some (s ++ before, after)
    | None => None
    end.
Proof.
  induction s as [|d s IH]; intros H.
  - cbn [append]. destruct (split_first (String c p) rest) as [[b a]|]; reflexivity.
  - cbn [has_char] in H. apply orb_false_iff in H as [Hd Hs].
    change (String d s ++ rest) with (String d (s ++ rest)).
    cbn [split_first starts_with]. rewrite Hd. cbn [andb].
    rewrite (IH Hs).
    destruct (split_first (String c p) rest) as [[b a]|]; reflexivity.
Qed.

(** Another placeholder is passed over by the search. *)
Lemma split_first_skip_hole (p q : placeholder) (rest : string) :
  placeholder_eqb q p = false ->
  split_first (hole_text p) (hole_text q ++ rest)
  = match split_first (hole_text p) rest with
    | Some (before, after) => Some (hole_text q ++ before, after)
    | None => None
    end.
Proof.
  destruct p, q; cbn [placeholder_eqb]; intros H; try discriminate H;
    cbn [hole_text append split_first starts_with Ascii.eqb Bool.eqb andb];
    destruct (split_first _ rest) as [[b a]|]; reflexivity.
Qed.

Lemma replace_skip (pat r y rest : string) :
  has_char "$" r = false ->
  split_first pat (y ++ rest)
  = match split_first pat rest with
    | Some (before, after) => Some (y ++ before, after)
    | None => None
    end ->
  replace pat r (y ++ rest) = y ++ replace pat r rest.
Proof.
  intros Hr Hs. unfold replace. rewrite Hs.
  destruct (split_first pat rest) as [[b a]|]; [|reflexivity].
  rewrite !GetSubstitution_plain by exact Hr.
  now rewrite append_assoc.
Qed.

(** [replace] passes over a text without the first character of the
    pattern, and over another placeholder. *)
Lemma replace_after_text (c : ascii) (p r s rest : string) :
  has_char "$" r = false ->
  has_char c s = false ->
  replace (String c p) r (s ++ rest) = s ++ replace (String c p) r rest.
Proof.
  intros Hr Hs. apply replace_skip; [exact Hr|]. now apply split_first_skip_text.
Qed.

Lemma replace_after_hole (p q : placeholder) (r rest : string) :
  has_char "$" r = false ->
  placeholder_eqb q p = false ->
  replace (hole_text p) r (hole_text q ++ rest) = hole_text q ++ replace (hole_text p) r rest.
Proof.
  intros Hr Hq. apply replace_skip; [exact Hr|]. now apply split_first_skip_hole.
Qed.

(** [replace] with a placeholder as its pattern fills the first such
    placeholder of the template. *)
Lemma replace_segments (p : placeholder) (r : string) (segs : list segment) :
  plain segs = true ->
  has_char "$" r = false ->
  replace (hole_text p) r (template_of segs) = template_of (fill_first p r segs).
Proof.
  intros Hplain Hr. induction segs as [|[s|q] rest IH].
  - destruct p; reflexivity.
  - cbn [plain] in Hplain. apply andb_true_iff in Hplain as [Hs Hrest].
    apply negb_true_iff in Hs.
    cbn [template_of fill_first]. rewrite <- (IH Hrest).
    apply replace_skip; [exact Hr|].
    destruct p; apply split_first_skip_text; exact Hs.
  - cbn [plain] in Hplain. cbn [template_of fill_first].
    destruct (placeholder_eqb q p) eqn:E.
    + assert (q = p) as -> by (destruct p, q; cbn in E; congruence).
      unfold replace.
      assert (Hsplit : split_first (hole_text p) (hole_text p ++ template_of rest)
                       = Some (EmptyString, template_of rest)).
      { destruct p; cbn [hole_text append split_first starts_with Ascii.eqb Bool.eqb andb drop
                           String.length]; reflexivity. }
      rewrite Hsplit. rewrite GetSubstitution_plain by exact Hr. reflexivity.
    + cbn [template_of]. rewrite <- (IH Hplain).
      apply replace_skip; [exact Hr|].
      now apply split_first_skip_hole.
Qed.

Lemma fill_first_plain (p : placeholder) (r : string) (segs : list segment) :
  plain segs = true -> has_char "{" r = false -> plain (fill_first p r segs) = true.
Proof.
  intros Hplain Hr. induction segs as [|[s|q] rest IH]; cbn [fill_first plain] in *.
  - reflexivity.
  - apply andb_true_iff in Hplain as [Hs Hrest]. now rewrite Hs, IH.
  - destruct (placeholder_eqb q p); cbn [plain]; [now rewrite Hr | auto].
Qed.

End Segments.

(** ** The characters of a printed number *)

Section NumberText.
Import JsString JsStringFacts.

Variable c : ascii.
Hypothesis Hc : has_char c "0123456789.-+eNaInfity" = false.

Lemma digits_chars (u : Decimal.uint) : has_char c (NilEmpty.string_of_uint u) = false.
Proof.
  cbn [has_char] in Hc.
  repeat (apply orb_false_iff in Hc as [? Hc]).
  induction u; cbn [NilEmpty.string_of_uint has_char];
    repeat match goal with H : Ascii.eqb c _ = false |- _ => rewrite H; clear H end;
    auto.
Qed.

Lemma strip_chars (s : string) :
  has_char c s = false -> has_char c (strip_trailing_zeros s) = false.
Proof.
  induction s as [|d s IH]; cbn [strip_trailing_zeros has_char]; [reflexivity|].
  intros H; apply orb_false_iff in H as [Hd Hs].
  specialize (IH Hs).
  destruct (strip_trailing_zeros s) as [|d' r].
  - destruct (Ascii.eqb d "0"); cbn [has_char]; [reflexivity | now rewrite Hd].
  - cbn [has_char] in *. rewrite Hd. exact IH.
Qed.

Lemma format_chars (s : string) (n : Z) :
  has_char c s = false -> has_char c (format_digits s n) = false.
Proof.
  intros Hs. unfold format_digits.
  assert (Hexp : has_char c (match Z.abs (n - 1) with
                             | Zpos p => digits_of_pos p
                             | _ => "0"
                             end) = false).
  { destruct (Z.abs (n - 1)); try apply digits_chars;
      cbn [has_char] in *; repeat (apply orb_false_iff in Hc as [? Hc]);
      repeat match goal with H : Ascii.eqb c _ = false |- _ => rewrite H; clear H end;
      reflexivity. }
  assert (Hone : forall d, has_char c (String d EmptyString) = false -> Ascii.eqb c d = false)
    by (intros d H; cbn [has_char] in H; now apply orb_false_iff in H as [H _]).
  cbn [has_char] in Hc. repeat (apply orb_false_iff in Hc as [? Hc]).
  repeat match goal with
         | |- context [if ?b then _ else _] => destruct b
         end;
    repeat (rewrite has_char_append || cbn [has_char]);
    rewrite ?Hs, ?Hexp, ?has_char_take, ?has_char_drop, ?has_char_repeat by auto;
    repeat match goal with H : Ascii.eqb c _ = false |- _ => rewrite H; clear H end;
    reflexivity.
Qed.

(** A character outside the digits, the point, the signs, [e] and the
    letters of [NaN] and [Infinity] is in no printed number. *)
Lemma toString_chars (x : number) : has_char c (toString x) = false.
Proof.
  pose proof Hc as Hall.
  cbn [has_char] in Hall. repeat (apply orb_false_iff in Hall as [? Hall]).
  destruct x as [|[|]|[|p|p] e]; unfold toString.
  1-4: cbn [has_char];
       repeat match goal with H : Ascii.eqb c _ = false |- _ => rewrite H; clear H end;
       reflexivity.
  - apply format_chars, strip_chars, digits_chars.
  - rewrite has_char_append. cbn [has_char]. unfold digits_of_pos.
    rewrite (format_chars _ _ (strip_chars _ (digits_chars (Pos.to_uint p)))).
    repeat match goal with H : Ascii.eqb c _ = false |- _ => rewrite H; clear H end;
      reflexivity.
Qed.

End NumberText.

(** ** More on the message renderer *)

Section RendererFacts.
Import JsString JsStringFacts JsNumberFacts Fixtures.

(** X1.  On a template whose literal text holds no opening brace, and for a
    metric name without [$] and without opening brace, [generateMessage]
    fills the first [{metricName}], the first [{value}] and the first
    [{threshold}] of the template with the name, the value and the
    threshold, and leaves every other segment, later placeholders included,
    as it is written. *)
Theorem generateMessage_fills_first_holes
    (segs : list segment) (metricName : string) (value threshold : number) :
  plain segs = true ->
  has_char "$" metricName = false ->
  has_char "{" metricName = false ->
  generateMessage (template_of segs) metricName value threshold
  = template_of
      (fill_first Threshold (toString threshold)
         (fill_first Value (toString value)
            (fill_first MetricName metricName segs))).
Proof.
  intros Hplain Hdollar Hbrace. unfold generateMessage.
  change "{metricName}" with (hole_text MetricName).
  change "{value}" with (hole_text Value).
  change "{threshold}" with (hole_text Threshold).
  rewrite (replace_segments MetricName metricName segs Hplain Hdollar).
  rewrite replace_segments;
    [| now apply fill_first_plain | apply toString_no_dollar].
  rewrite replace_segments; [reflexivity | | apply toString_no_dollar].
  apply fill_first_plain; [now apply fill_first_plain|].
  now apply toString_chars.
Qed.

(** The template of the unit tests' rule, rendered. *)
Lemma generateMessage_fills_first_holes_example :
  generateMessage "{metricName} is {value}, exceeding {threshold}; {value}"
    "Temperature" (Finite 355 (-1)) (of_Z 30)
  = "Temperature is 35.5, exceeding 30; {value}".
Proof.
  exact (generateMessage_fills_first_holes
           [Hole MetricName; Text " is "; Hole Value; Text ", exceeding ";
            Hole Threshold; Text "; "; Hole Value]
           "Temperature" (Finite 355 (-1)) (of_Z 30) eq_refl eq_refl eq_refl).
Defined.

Lemma GetSubstitution_app (matched before after a template : string) :
  has_char "$" a = false ->
  GetSubstitution matched before after (a ++ template)
  = a ++ GetSubstitution matched before after template.
Proof.
  induction a as [|c a IH]; intros H; [reflexivity|].
  cbn [has_char] in H. apply orb_false_iff in H as [Hc Ha].
  rewrite Ascii.eqb_sym in Hc.
  change (String c a ++ template) with (String c (a ++ template)).
  cbn [GetSubstitution]. rewrite Hc. now rewrite (IH Ha).
Qed.

(** X2.  The metric name is a replacement pattern of [replace], not a
    literal text: in a name, [$$] is rendered as one [$], and [$&] as the
    placeholder [{metricName}] itself.  It holds for every template whose
    text before the placeholder holds no opening brace, whatever follows the
    placeholder; what follows is rendered by the two later replacements as
    it would be on its own. *)
Theorem generateMessage_dollar_in_name
    (pre post a b : string) (value threshold : number) :
  has_char "{" pre = false ->
  has_char "{" a = false ->
  has_char "{" b = false ->
  has_char "$" a = false ->
  has_char "$" b = false ->
  generateMessage (pre ++ "{metricName}" ++ post) (a ++ "$$" ++ b) value threshold
  = pre ++ a ++ "$" ++ b
    ++ replace "{threshold}" (toString threshold) (replace "{value}" (toString value) post)
  /\ generateMessage (pre ++ "{metricName}" ++ post) (a ++ "$&" ++ b) value threshold
     = pre ++ a ++ "{metricName}" ++ b
       ++ replace "{threshold}" (toString threshold) (replace "{value}" (toString value) post).
Proof.
  intros Hpre Ha Hb Hda Hdb.
  assert (Hsplit : split_first "{metricName}" (pre ++ "{metricName}" ++ post)
                   = Some (pre, post)).
  { apply (split_first_here "{" "metricName}"); [reflexivity|].
    now apply has_char_no_match. }
  assert (Hv := toString_no_dollar value).
  assert (Ht := toString_no_dollar threshold).
  split; unfold generateMessage.
  - unfold replace at 3. rewrite Hsplit.
    rewrite (GetSubstitution_app _ _ _ a) by exact Hda.
    change ("$$" ++ b) with (String "$" (String "$" b)).
    cbn [GetSubstitution Ascii.eqb Bool.eqb].
    rewrite GetSubstitution_plain by exact Hdb.
    change (String "$" b) with ("$" ++ b).
    replace (pre ++ (a ++ "$" ++ b) ++ post) with ((pre ++ a ++ "$" ++ b) ++ post)
      by (now rewrite !append_assoc).
    assert (Htext : has_char "{" (pre ++ a ++ "$" ++ b) = false).
    { rewrite !has_char_append, Hpre, Ha, Hb. reflexivity. }
    rewrite (replace_after_text "{" "value}" _ _ post Hv Htext).
    rewrite (replace_after_text "{" "threshold}" _ _ _ Ht Htext).
    now rewrite !append_assoc.
  - unfold replace at 3. rewrite Hsplit.
    rewrite (GetSubstitution_app _ _ _ a) by exact Hda.
    change ("$&" ++ b) with (String "$" (String "&" b)).
    cbn [GetSubstitution Ascii.eqb Bool.eqb].
    rewrite GetSubstitution_plain by exact Hdb.
    replace (pre ++ (a ++ "{metricName}" ++ b) ++ post)
      with ((pre ++ a) ++ hole_text MetricName ++ b ++ post)
      by (cbn [hole_text]; now rewrite !append_assoc).
    assert (Htext : has_char "{" (pre ++ a) = false).
    { rewrite has_char_append, Hpre, Ha. reflexivity. }
    rewrite (replace_after_text "{" "value}" _ _ _ Hv Htext).
    rewrite (replace_after_hole Value MetricName _ _ Hv eq_refl).
    rewrite (replace_after_text "{" "value}" _ _ _ Hv Hb).
    rewrite (replace_after_text "{" "threshold}" _ _ _ Ht Htext).
    rewrite (replace_after_hole Threshold MetricName _ _ Ht eq_refl).
    rewrite (replace_after_text "{" "threshold}" _ _ _ Ht Hb).
    cbn [hole_text]. now rewrite !append_assoc.
Qed.

(** A metric named [Cost in $$] loses a dollar sign, in the template of the
    unit tests' rule. *)
Lemma generateMessage_dollar_in_name_example :
  generateMessage "{metricName} is {value}, exceeding {threshold}" "Cost in $$"
    (of_Z 5) (of_Z 7)
  = "Cost in $ is 5, exceeding 7"
  /\ generateMessage "{metricName} is {value}, exceeding {threshold}" "Cost $& up"
       (of_Z 5) (of_Z 7)
     = "Cost {metricName} up is 5, exceeding 7".
Proof.
  split.
  - exact (proj1 (generateMessage_dollar_in_name EmptyString
                    " is {value}, exceeding {threshold}" "Cost in " EmptyString
                    (of_Z 5) (of_Z 7) eq_refl eq_refl eq_refl eq_refl eq_refl)).
  - exact (proj2 (generateMessage_dollar_in_name EmptyString
                    " is {value}, exceeding {threshold}" "Cost " " up"
                    (of_Z 5) (of_Z 7) eq_refl eq_refl eq_refl eq_refl eq_refl)).
Defined.

End RendererFacts.

(** ** More on the pipeline *)

Section PipelineFacts.
Import Fixtures.

Variable redisClient : Redis.client.
Variable prisma : Prisma.client.
Variable JSON_parse : string -> result (option (list AlertRule.t)).

Ltac run := unfold bind, await, ret, lift; cbv beta zeta.

(** X3.  A reading whose metric is not found is dropped in silence: after
    the rules are fetched, the metric lookup that answers [null] is the last
    call of the run; nothing is created, published or logged. *)
Theorem metric_not_found_is_silent (reading : Reading.t) (io : option Io.server)
        (h h1 : history) (rules : list AlertRule.t) :
  fetch_rules redisClient prisma JSON_parse (Reading.metric_id reading)
    ("alert_rules:" ++ Reading.metric_id reading) h = (Ok rules, h1) ->
  Prisma.metric_findUnique prisma h1 (Reading.metric_id reading) = Ok None ->
  checkRules redisClient prisma JSON_parse reading io h
  = (Ok tt, (h1 ++ [MetricFindUnique (Reading.metric_id reading) (Ok None)])%list).
Proof.
  intros Hfetch Hmetric.
  unfold checkRules. erewrite try_catch_log.
  2:{ unfold checkRules_body, bind at 1. rewrite Hfetch.
      unfold evaluate. run. rewrite Hmetric. reflexivity. }
  cbn [log_of]. now rewrite app_nil_r.
Qed.

(** X4.  A cache entry that is not JSON stops the evaluation: the
    [SyntaxError] of [JSON.parse] is logged with the reading's id and
    nothing else is called; the store is not asked for the rules. *)
Theorem corrupt_cache_entry_is_logged (reading : Reading.t) (io : option Io.server)
        (h : history) (c : ascii) (text : string) (e : error) :
  Redis.get redisClient h ("alert_rules:" ++ Reading.metric_id reading)
  = Ok (Some (String c text)) ->
  JSON_parse (String c text) = Thrown e ->
  checkRules redisClient prisma JSON_parse reading io h
  = (Ok tt,
     (h ++ [RedisGet ("alert_rules:" ++ Reading.metric_id reading) (Ok (Some (String c text)));
            ConsoleError ("Error in checkRules for reading " ++ Reading.id reading ++ ":")
              e])%list).
Proof.
  intros Hget Hparse.
  unfold checkRules. erewrite try_catch_log.
  2:{ unfold checkRules_body, fetch_rules. run. rewrite Hget, Hparse. reflexivity. }
  cbn [log_of]. now rewrite <- app_assoc.
Qed.

Lemma loop_cache_writes reading io metric rules evs r :
  loop_trace reading io metric rules evs r -> cache_writes evs = [].
Proof. induction 1; unfold cache_writes in *; cbn [flat_map app]; auto. Qed.

Lemma eval_cache_writes reading io rules evs r :
  eval_trace reading io rules evs r -> cache_writes evs = [].
Proof.
  destruct 1 as [e| |metric evs r Hl]; try reflexivity.
  exact (loop_cache_writes _ _ _ _ _ _ Hl).
Qed.

Lemma in_cache_writes key value ex r (evs : list event) :
  In (RedisSet key value ex r) evs -> In key (cache_writes evs).
Proof.
  intros Hin. unfold cache_writes. apply in_flat_map.
  exists (RedisSet key value ex r). split; [exact Hin | now left].
Qed.

Lemma disciplined_without_writes reading (evs : list event) :
  cache_writes evs = [] -> disciplined reading evs.
Proof.
  intros Hw. split; [|split].
  - intros key value ex r Hin. apply in_cache_writes in Hin.
    rewrite Hw in Hin. destruct Hin.
  - rewrite Hw. apply Nat.le_0_l.
  - intros _. exact Hw.
Qed.

Lemma disciplined_app reading (evs rest : list event) :
  disciplined reading evs -> cache_writes rest = [] ->
  disciplined reading (evs ++ rest).
Proof.
  intros (Hin & Hlen & Hq) Hrest. split; [|split].
  - intros key value ex r Hi. apply in_app_or in Hi as [Hi | Hi].
    + destruct (Hin _ _ _ _ Hi) as (Hk & Hex & rules & Hv & Hfind).
      split; [exact Hk|]. split; [exact Hex|].
      exists rules. split; [exact Hv|]. apply in_or_app. now left.
    + apply in_cache_writes in Hi. rewrite Hrest in Hi. destruct Hi.
  - unfold cache_writes in *. rewrite flat_map_app, Hrest, app_nil_r. exact Hlen.
  - intros Hs. unfold cache_writes, store_queries in *.
    rewrite flat_map_app in *. rewrite Hrest, app_nil_r.
    apply Hq. now apply app_eq_nil in Hs as [Hs _].
Qed.

Lemma fetch_disciplined reading evs (r : result (list AlertRule.t)) :
  fetch_trace JSON_parse reading evs r -> disciplined reading evs.
Proof.
  intros Hf.
  destruct Hf as [e0|c text e0 Hp|c text rules Hp|cached evs r Hc Hs];
    try (apply disciplined_without_writes; reflexivity).
  destruct Hs as [e0|rules e0|rules].
  - apply disciplined_without_writes; reflexivity.
  - split; [|split].
    + intros key value ex r0 Hin. cbn [In] in Hin.
      destruct Hin as [Hin | [Hin | [Hin | []]]]; try discriminate Hin.
      injection Hin as <- <- <- _. split; [reflexivity|]. split; [reflexivity|].
      exists rules. split; [reflexivity|]. cbn [In]. auto.
    + unfold cache_writes. cbn [flat_map app List.length]. lia.
    + unfold store_queries. cbn [flat_map app]. discriminate.
  - split; [|split].
    + intros key value ex r0 Hin. cbn [In] in Hin.
      destruct Hin as [Hin | [Hin | [Hin | []]]]; try discriminate Hin.
      injection Hin as <- <- <- _. split; [reflexivity|]. split; [reflexivity|].
      exists rules. split; [reflexivity|]. cbn [In]. auto.
    + unfold cache_writes. cbn [flat_map app List.length]. lia.
    + unfold store_queries. cbn [flat_map app]. discriminate.
Qed.

(** X5.  What a run writes to the cache: at most one entry, under the key
    ["alert_rules:" + metric_id] of the reading, with a TTL of 300 seconds,
    holding [JSON.stringify] of the rules the store returned in this run.  A
    run that did not query the store writes nothing. *)
Theorem cache_write_discipline (reading : Reading.t) (io : option Io.server) (h : history) :
  exists evs,
    checkRules redisClient prisma JSON_parse reading io h = (Ok tt, (h ++ evs)%list)
    /\ (forall key value ex r,
           In (RedisSet key value ex r) evs ->
           key = "alert_rules:" ++ Reading.metric_id reading
           /\ ex = 300
           /\ exists rules,
               value = JSON.stringify rules
               /\ In (AlertRuleFindMany (Reading.metric_id reading) (Ok rules)) evs)
    /\ (List.length (cache_writes evs) <= 1)%nat
    /\ (store_queries evs = [] -> cache_writes evs = []).
Proof.
  destruct (checkRules_run redisClient prisma JSON_parse reading io h)
    as (evs & r & Htr & _ & Hrun).
  eexists. split; [exact Hrun|].
  assert (Hlog : cache_writes (log_of reading r) = []) by (destruct r; reflexivity).
  fold (log_of reading r).
  change (disciplined reading (evs ++ log_of reading r)).
  apply disciplined_app; [|exact Hlog].
  destruct Htr as [evs e0 Hf|fetched rules evs r Hf He].
  - exact (fetch_disciplined _ _ _ Hf).
  - apply disciplined_app; [exact (fetch_disciplined _ _ _ Hf)|].
    exact (eval_cache_writes _ _ _ _ _ He).
Qed.

(** X6.  Whatever the store and the notifier answer, the loop creates
    alerts for matching rules only, in the order of the rules and at most
    once per rule: the creates of a run are a beginning of the list of the
    matching rules' alerts, the whole list when the loop was not left by an
    exception; and there are never more persisted alerts than creates, nor
    more publishes than persisted alerts. *)
Theorem alerts_follow_matching_rules (reading : Reading.t) (io : option Io.server)
        (metric : Metric.t) (rules : list AlertRule.t) (h : history) :
  exists evs r rest,
    for_rules prisma reading io metric rules h = (r, (h ++ evs)%list)
    /\ map (fun rule => alertData reading rule metric) (filter (matches reading) rules)
       = (creates evs ++ rest)%list
    /\ (r = Ok tt -> rest = [])
    /\ (List.length (emits evs) <= List.length (persisted evs)
        <= List.length (creates evs))%nat.
Proof.
  destruct (for_rules_trace prisma reading io metric rules h) as (evs & r & Hrun & Htr).
  exists evs, r.
  assert (H : exists rest,
             map (fun rule => alertData reading rule metric) (filter (matches reading) rules)
             = (creates evs ++ rest)%list
             /\ (r = Ok tt -> rest = [])
             /\ (List.length (emits evs) <= List.length (persisted evs)
                 <= List.length (creates evs))%nat).
  { clear Hrun. induction Htr as
        [ | rule rest0 evs r Hm Htr IH | rule rest0 e Hm | rule rest0 a evs r Hm Hg Htr IH
          | rule rest0 a evs r Hm Hg Htr IH | rule rest0 a e Hm Hg ];
      cbn [filter]; rewrite ?Hm; unfold creates, persisted, emits in *;
      cbn [flat_map app map List.length].
    - exists []. repeat split; auto.
    - exact IH.
    - eexists. split; [reflexivity|]. split; [discriminate | lia].
    - destruct IH as (rest & Heq & Hok & Hlen). exists rest.
      rewrite Heq. split; [reflexivity|]. split; [exact Hok | lia].
    - destruct IH as (rest & Heq & Hok & Hlen). exists rest.
      rewrite Heq. split; [reflexivity|]. split; [exact Hok | lia].
    - eexists. split; [reflexivity|]. split; [discriminate | lia]. }
  destruct H as (rest & H). exists rest. split; [exact Hrun | exact H].
Qed.

(** X7.  The loop on a list of rules is the loop on its beginning followed,
    unless an exception left it, by the loop on its end. *)
Theorem for_rules_app (reading : Reading.t) (io : option Io.server) (metric : Metric.t)
        (rules1 rules2 : list AlertRule.t) (h : history) :
  for_rules prisma reading io metric (rules1 ++ rules2) h
  = bind (for_rules prisma reading io metric rules1)
         (fun _ => for_rules prisma reading io metric rules2) h.
Proof.
  revert h. induction rules1 as [|rule rules1 IH]; intros h.
  - reflexivity.
  - cbn [app for_rules].
    destruct (conditionMet _ _ _) as [[|]|]; auto.
    run.
    destruct (Prisma.alert_create prisma h _) as [a|e]; [|reflexivity].
    destruct io as [server|].
    + destruct (truthy _).
      * destruct (Io.to_emit server _ _ _ a) as [[]|e]; [|reflexivity].
        rewrite IH. reflexivity.
      * rewrite IH. reflexivity.
    + rewrite IH. reflexivity.
Qed.

End PipelineFacts.

(** X8.  The operators come in complementary pairs.  [!=] holds exactly
    when [==] does not.  When neither number is [NaN], [<=] holds exactly
    when [>] does not and [>=] exactly when [<] does not, and exactly one of
    [<], [==], [>] holds.  When the value or the threshold is [NaN], [!=]
    holds and no other operator does. *)
Theorem complementary_operators :
  (forall v t, conditionMet "!=" v t = option_map negb (conditionMet "==" v t))
  /\ (forall v t,
         JsNumber.compare v t <> None ->
         conditionMet "<=" v t = option_map negb (conditionMet ">" v t)
         /\ conditionMet ">=" v t = option_map negb (conditionMet "<" v t)
         /\ (conditionMet "<" v t = Some true /\ conditionMet "==" v t = Some false
             /\ conditionMet ">" v t = Some false
             \/ conditionMet "<" v t = Some false /\ conditionMet "==" v t = Some true
                /\ conditionMet ">" v t = Some false
             \/ conditionMet "<" v t = Some false /\ conditionMet "==" v t = Some false
                /\ conditionMet ">" v t = Some true))
  /\ (forall v t,
         JsNumber.compare v t = None ->
         conditionMet "!=" v t = Some true
         /\ forall op, In op [">"; "<"; ">="; "<="; "=="] -> conditionMet op v t = Some false).
Proof.
  split; [|split].
  - reflexivity.
  - intros v t Hc. unfold conditionMet. cbn [String.eqb Ascii.eqb Bool.eqb].
    unfold le, ge, gt, lt, strict_eq.
    destruct (JsNumber.compare v t) as [[| |]|]; [| | |congruence]; cbn; auto 10.
  - intros v t Hc. split.
    + unfold conditionMet. cbn [String.eqb Ascii.eqb Bool.eqb].
      unfold strict_neq, strict_eq. now rewrite Hc.
    + intros op Hop. cbn [In] in Hop.
      repeat (destruct Hop as [<- | Hop]);
        try (unfold conditionMet; cbn [String.eqb Ascii.eqb Bool.eqb];
             unfold le, ge, gt, lt, strict_eq; now rewrite Hc).
Qed.

(** ** More scenarios *)

Section MoreScenarios.
Import Fixtures.

(** A reading of a metric that the store does not know. *)
Lemma metric_not_found_is_silent_example :
  checkRules (redis_hit [mockAlertRule]) (prisma_ok [] None) (parse_of [mockAlertRule])
    mockReading (Some mockIo) []
  = (Ok tt,
     [RedisGet "alert_rules:metric-123" (Ok (Some (JSON.stringify [mockAlertRule])));
      MetricFindUnique "metric-123" (Ok None)]).
Proof.
  apply (metric_not_found_is_silent (redis_hit [mockAlertRule]) (prisma_ok [] None)
           (parse_of [mockAlertRule]) mockReading (Some mockIo) []
           [RedisGet "alert_rules:metric-123" (Ok (Some (JSON.stringify [mockAlertRule])))]
           [mockAlertRule]).
  - vm_compute. reflexivity.
  - reflexivity.
Defined.

(** A cache entry that is not JSON. *)
Lemma corrupt_cache_entry_is_logged_example :
  checkRules redis_corrupt (prisma_ok [mockAlertRule] (Some mockMetric))
    (parse_of [mockAlertRule]) mockReading (Some mockIo) []
  = (Ok tt,
     [RedisGet "alert_rules:metric-123" (Ok (Some "not json"));
      ConsoleError "Error in checkRules for reading reading-123:" "SyntaxError"]).
Proof.
  apply (corrupt_cache_entry_is_logged redis_corrupt
           (prisma_ok [mockAlertRule] (Some mockMetric))
           (parse_of [mockAlertRule]) mockReading (Some mockIo) []
           "n"%char "ot json" "SyntaxError").
  - reflexivity.
  - vm_compute. reflexivity.
Defined.

End MoreScenarios.

(** ** Lists of strings *)

Lemma existsb_eqb_in (x : string) (xs : list string) :
  existsb (String.eqb x) xs = true <-> In x xs.
Proof.
  rewrite existsb_exists. split.
  - intros (y & Hin & Hy). apply String.eqb_eq in Hy. now subst.
  - intros Hin. exists x. split; [exact Hin | apply String.eqb_refl].
Qed.

(** ** The cache helper *)

Section CacheFacts.
Import Cache.

Variable T : Type.
Variable JSON_stringify : T -> string.
Variable JSON_parse : string -> result T.

Ltac run := unfold Async.bind, Async.await, Async.ret, Async.lift; cbv beta zeta.

Lemma entry_snoc (key : string) (h : list (event T)) (ev : event T) :
  entry key (h ++ [ev])
  = match ev with
    | SetEx k _ value (Ok _) => if String.eqb k key then Some value else entry key h
    | Del ks (Ok _) => if existsb (String.eqb key) ks then None else entry key h
    | _ => entry key h
    end.
Proof.
  unfold entry. rewrite fold_left_app. reflexivity.
Qed.

Lemma written_snoc (h : list (event T)) (ev : event T) :
  written (h ++ [ev])
  = (written h ++ match ev with SetEx k _ _ (Ok _) => [k] | _ => [] end)%list.
Proof.
  unfold written. rewrite flat_map_app. cbn [flat_map]. now rewrite app_nil_r.
Qed.

Lemma entry_written (key : string) (h : list (event T)) (value : string) :
  entry key h = Some value -> In key (written h).
Proof.
  revert value. induction h as [|ev h IH] using rev_ind; intros value.
  - discriminate.
  - rewrite entry_snoc, written_snoc. intros Hentry. apply in_or_app.
    destruct ev as [k r|r|k s v [u|e]|p r|ks [n|e]]; eauto.
    + destruct (String.eqb k key) eqn:Hk.
      * apply String.eqb_eq in Hk. subst. right. now left.
      * eauto.
    + destruct (existsb (String.eqb key) ks); [discriminate | eauto].
Qed.

Lemma fetch_and_set_outcome (redisClient : client T) (key : string)
      (fetchData : list (event T) -> result T) (ttl : Z) (h : list (event T)) :
  exists evs r,
    fetch_and_set JSON_stringify redisClient key fetchData ttl h = (r, (h ++ evs)%list)
    /\ (forall ev e, In ev evs -> failure ev = Some e -> r = Thrown e)
    /\ (List.length (fetches evs) <= 1)%nat
    /\ (forall data,
           r = Ok data ->
           evs = [FetchData (Ok data); SetEx key ttl (JSON_stringify data) (Ok tt)]).
Proof.
  unfold fetch_and_set. run.
  destruct (fetchData h) as [data|e] eqn:Hfetch.
  - destruct (setEx redisClient _ key ttl (JSON_stringify data)) as [[]|e] eqn:Hset.
    + eexists [_; _], _. rewrite <- !app_assoc. cbn [app].
      split; [reflexivity|]. split; [|split].
      * intros ev e Hin Hf. cbn [In] in Hin.
        repeat destruct Hin as [<-|Hin]; try discriminate. destruct Hin.
      * cbn. lia.
      * now intros d [= <-].
    + eexists [_; _], _. rewrite <- !app_assoc. cbn [app].
      split; [reflexivity|]. split; [|split].
      * intros ev e' Hin Hf. cbn [In] in Hin.
        repeat destruct Hin as [<-|Hin]; try discriminate; [|destruct Hin].
        cbn [failure] in Hf. congruence.
      * cbn. lia.
      * discriminate.
  - eexists [_], _. split; [reflexivity|]. split; [|split].
    + intros ev e' [<-|[]] Hf. cbn [failure] in Hf. congruence.
    + cbn. lia.
    + discriminate.
Qed.

(** X12.  What [getOrSet] does, whatever the cache, the data source and
    the parser answer.  No failure is swallowed: a call that failed is the
    outcome of [getOrSet], the cache write after a successful fetch
    included.  The data source is called at most once.  And the data
    returned are either what [JSON.parse] reads from a non-empty entry, with
    no other call made, or what the data source returned, after it was
    written under the key with the TTL ([CACHE_TTL] when none is given). *)
Theorem getOrSet_outcome (redisClient : client T) (key : string)
        (fetchData : list (event T) -> result T) (ttl : option Z) (h : list (event T)) :
  exists evs r,
    getOrSet JSON_stringify JSON_parse redisClient key fetchData ttl h = (r, (h ++ evs)%list)
    /\ (forall ev e, In ev evs -> failure ev = Some e -> r = Thrown e)
    /\ (List.length (fetches evs) <= 1)%nat
    /\ (forall data,
           r = Ok data ->
           (exists c text,
               evs = [Get key (Ok (Some (String c text)))]
               /\ JSON_parse (String c text) = Ok data)
           \/ (exists cached,
                  truthy cached = false
                  /\ evs = [Get key (Ok cached); FetchData (Ok data);
                            SetEx key (match ttl with Some s => s | None => CACHE_TTL end)
                              (JSON_stringify data) (Ok tt)])).
Proof.
  unfold getOrSet. cbv zeta. unfold Async.bind at 1, Async.await at 1. cbv beta zeta.
  destruct (get redisClient h key) as [cached|e] eqn:Hget.
  - assert (Hmiss :
        truthy cached = false ->
        exists evs r,
          fetch_and_set JSON_stringify redisClient key fetchData
            (match ttl with Some s => s | None => CACHE_TTL end)
            (h ++ [Get key (Ok cached)])%list = (r, (h ++ evs)%list)
          /\ (forall ev e, In ev evs -> failure ev = Some e -> r = Thrown e)
          /\ (List.length (fetches evs) <= 1)%nat
          /\ (forall data,
                 r = Ok data ->
                 (exists c text,
                     evs = [Get key (Ok (Some (String c text)))]
                     /\ JSON_parse (String c text) = Ok data)
                 \/ (exists cached,
                        truthy cached = false
                        /\ evs = [Get key (Ok cached); FetchData (Ok data);
                                  SetEx key (match ttl with Some s => s | None => CACHE_TTL end)
                                    (JSON_stringify data) (Ok tt)]))).
    { intros Hfalsy.
      destruct (fetch_and_set_outcome redisClient key fetchData
                  (match ttl with Some s => s | None => CACHE_TTL end)
                  (h ++ [Get key (Ok cached)])%list)
        as (evs & r & Hrun & Hfail & Hfetch & Hdata).
      exists (Get key (Ok cached) :: evs), r. split; [|split; [|split]].
      - rewrite Hrun, <- app_assoc. reflexivity.
      - intros ev e [<-|Hin] Hf; [discriminate | eauto].
      - exact Hfetch.
      - intros data Hr. right. exists cached. split; [exact Hfalsy|].
        now rewrite (Hdata data Hr). }
    destruct cached as [[|c text]|].
    + now apply Hmiss.
    + eexists [_], _. split; [reflexivity|]. split; [|split].
      * intros ev e [<-|[]]; discriminate.
      * cbn. lia.
      * intros d Hd. left. exists c, text. split; [reflexivity | exact Hd].
    + now apply Hmiss.
  - eexists [_], _. split; [reflexivity|]. split; [|split].
    + intros ev e' [<-|[]] Hf. cbn [failure] in Hf. congruence.
    + cbn. lia.
    + discriminate.
Qed.

Lemma getOrSet_miss (redisClient : client T) (key : string)
      (fetchData : list (event T) -> result T) (ttl : option Z) (h : list (event T))
      (cached : option string) (data : T) :
  get redisClient h key = Ok cached ->
  truthy cached = false ->
  fetchData (h ++ [Get key (Ok cached)])%list = Ok data ->
  setEx redisClient (h ++ [Get key (Ok cached); FetchData (Ok data)])%list key
    (match ttl with Some s => s | None => CACHE_TTL end) (JSON_stringify data) = Ok tt ->
  getOrSet JSON_stringify JSON_parse redisClient key fetchData ttl h
  = (Ok data,
     (h ++ [Get key (Ok cached); FetchData (Ok data);
            SetEx key (match ttl with Some s => s | None => CACHE_TTL end)
              (JSON_stringify data) (Ok tt)])%list).
Proof.
  intros Hget Hfalsy Hfetch Hset.
  unfold getOrSet, fetch_and_set. run. rewrite Hget.
  assert (Hrest :
      (let (r, h') :=
         (fetchData (h ++ [Get key (Ok cached)])%list,
          ((h ++ [Get key (Ok cached)]) ++
           [FetchData (fetchData (h ++ [Get key (Ok cached)])%list)])%list) in
       match r with
       | Ok a =>
           let (r0, h'0) :=
             (setEx redisClient h' key (match ttl with Some s => s | None => CACHE_TTL end)
                (JSON_stringify a),
              (h' ++ [SetEx key (match ttl with Some s => s | None => CACHE_TTL end)
                        (JSON_stringify a)
                        (setEx redisClient h' key
                           (match ttl with Some s => s | None => CACHE_TTL end)
                           (JSON_stringify a))])%list) in
           match r0 with
           | Ok _ => (Ok a, h'0)
           | Thrown e => (Thrown e, h'0)
           end
       | Thrown e => (Thrown e, h')
       end)
      = (Ok data,
         (h ++ [Get key (Ok cached); FetchData (Ok data);
                SetEx key (match ttl with Some s => s | None => CACHE_TTL end)
                  (JSON_stringify data) (Ok tt)])%list)).
  { rewrite Hfetch. rewrite <- !app_assoc. cbn [app]. rewrite Hset. reflexivity. }
  destruct cached as [[|c text]|]; [exact Hrest | discriminate | exact Hrest].
Qed.

(** X13.  The round trip through a cache that keeps what is written to it,
    for data that [JSON.parse] reads back from their [JSON.stringify] text:
    the first call for a key without entry fetches the data and stores them;
    the next call returns the same data from the cache alone, whatever its
    data source would answer. *)
Theorem getOrSet_round_trip (glob : string -> string -> bool) (key : string)
        (fetchData : list (event T) -> result T) (ttl : option Z) (h : list (event T))
        (data : T) :
  JSON_parse (JSON_stringify data) = Ok data ->
  JSON_stringify data <> EmptyString ->
  entry key h = None ->
  fetchData (h ++ [Get key (Ok None)])%list = Ok data ->
  let h1 :=
    (h ++ [Get key (Ok None); FetchData (Ok data);
           SetEx key (match ttl with Some s => s | None => CACHE_TTL end)
             (JSON_stringify data) (Ok tt)])%list in
  getOrSet JSON_stringify JSON_parse (memory glob) key fetchData ttl h = (Ok data, h1)
  /\ forall fetchData' ttl',
      getOrSet JSON_stringify JSON_parse (memory glob) key fetchData' ttl' h1
      = (Ok data, (h1 ++ [Get key (Ok (Some (JSON_stringify data)))])%list).
Proof.
  intros Hround Hnonempty Hentry Hfetch h1. split.
  - apply getOrSet_miss.
    + cbn [memory get]. now rewrite Hentry.
    + reflexivity.
    + exact Hfetch.
    + reflexivity.
  - intros fetchData' ttl'. unfold getOrSet. run. cbn [memory get].
    assert (Hstored : entry key h1 = Some (JSON_stringify data)).
    { subst h1.
      change [Get key (Ok None); FetchData (Ok data);
              SetEx key (match ttl with Some s => s | None => CACHE_TTL end)
                (JSON_stringify data) (Ok tt)]
        with ([Get key (Ok None); FetchData (Ok data)]
              ++ [SetEx key (match ttl with Some s => s | None => CACHE_TTL end)
                    (JSON_stringify data) (@Ok unit tt)])%list.
      rewrite app_assoc, entry_snoc. now rewrite String.eqb_refl. }
    rewrite Hstored.
    destruct (JSON_stringify data) as [|c text] eqn:Htext; [congruence|].
    now rewrite Hround.
Qed.

Lemma keys_memory (glob : string -> string -> bool) (pattern key : string)
      (h : list (event T)) :
  In key (filter (fun key => glob pattern key && live h key) (nodup string_dec (written h)))
  <-> glob pattern key = true /\ entry key h <> None.
Proof.
  rewrite filter_In, nodup_In, andb_true_iff. unfold live. split.
  - intros (_ & Hglob & Hlive). split; [exact Hglob|].
    destruct (entry key h); [discriminate | discriminate].
  - intros (Hglob & Hentry). destruct (entry key h) as [value|] eqn:Hvalue; [|congruence].
    split; [|auto]. eapply entry_written, Hvalue.
Qed.

Lemma entry_after_invalidation (glob : string -> string -> bool) (pattern : string)
      (h : list (event T)) (found : list string) (deleted : Z) :
  (forall key, In key found <-> glob pattern key = true /\ entry key h <> None) ->
  forall key,
    entry key (h ++ Keys pattern (Ok found)
                 :: match found with
                    | [] => []
                    | _ :: _ => [Del found (Ok deleted)]
                    end)%list
    = if glob pattern key then None else entry key h.
Proof.
  intros Hfound key. destruct found as [|k ks].
  - rewrite entry_snoc.
    destruct (glob pattern key) eqn:Hglob; [|reflexivity].
    destruct (entry key h) as [value|] eqn:Hvalue; [|reflexivity].
    exfalso. apply (proj2 (Hfound key)). split; [exact Hglob | congruence].
  - change (Keys pattern (Ok (k :: ks)) :: [?d])%list
      with ([Keys pattern (Ok (k :: ks))] ++ [d])%list.
    rewrite app_assoc, entry_snoc, entry_snoc.
    destruct (existsb (String.eqb key) (k :: ks)) eqn:Hin.
    + apply existsb_eqb_in in Hin. apply Hfound in Hin. destruct Hin as (-> & _).
      reflexivity.
    + destruct (glob pattern key) eqn:Hglob; [|reflexivity].
      destruct (entry key h) as [value|] eqn:Hvalue; [|reflexivity].
      assert (Hkey : In key (k :: ks)) by (apply Hfound; split; congruence).
      apply existsb_eqb_in in Hkey. congruence.
Qed.

Lemma invalidatePattern_run (glob : string -> string -> bool) (pattern : string)
      (h : list (event T)) :
  exists found deleted,
    invalidatePattern (memory glob) pattern h
    = (Ok tt,
       (h ++ Keys pattern (Ok found)
          :: match found with
             | [] => []
             | _ :: _ => [Del found (Ok deleted)]
             end)%list)
    /\ (forall key, In key found <-> glob pattern key = true /\ entry key h <> None).
Proof.
  set (found := filter (fun key => glob pattern key && live h key)
                       (nodup string_dec (written h))).
  exists found,
    (Z.of_nat (List.length (filter (live (h ++ [Keys pattern (Ok found)])%list)
                                   (nodup string_dec found)))).
  split; [|intros key; apply keys_memory].
  unfold invalidatePattern. run. cbn [memory keys del]. fold found.
  destruct found as [|k ks]; [reflexivity|].
  rewrite <- app_assoc. reflexivity.
Qed.

(** X14.  [invalidatePattern] on a cache that keeps what is written to it:
    [KEYS] answers the keys that match the pattern and have an entry; [DEL]
    is called with exactly these keys, and not at all when there is none;
    afterwards no key matching the pattern has an entry, and the entry of
    every other key is what it was. *)
Theorem invalidatePattern_memory (glob : string -> string -> bool) (pattern : string)
        (h : list (event T)) :
  exists found deleted evs,
    invalidatePattern (memory glob) pattern h = (Ok tt, (h ++ evs)%list)
    /\ (forall key, In key found <-> glob pattern key = true /\ entry key h <> None)
    /\ evs = (Keys pattern (Ok found)
              :: match found with
                 | [] => []
                 | _ :: _ => [Del found (Ok deleted)]
                 end)%list
    /\ forall key,
        entry key (h ++ evs)%list = if glob pattern key then None else entry key h.
Proof.
  destruct (invalidatePattern_run glob pattern h) as (found & deleted & Hrun & Hfound).
  exists found, deleted. eexists. split; [exact Hrun|].
  split; [exact Hfound|]. split; [reflexivity|].
  now apply entry_after_invalidation.
Qed.

(** X15.  Invalidation makes the next call fetch again.  On a cache that
    keeps what is written to it, after [invalidatePattern] for a pattern
    that matches the key, [getOrSet] calls the data source and returns and
    stores what it answers now, whatever entry the key had before. *)
Theorem invalidated_key_is_fetched_again (glob : string -> string -> bool)
        (pattern key : string) (fetchData : list (event T) -> result T)
        (ttl : option Z) (h : list (event T)) (data : T) :
  glob pattern key = true ->
  (forall h', fetchData h' = Ok data) ->
  exists evs,
    invalidatePattern (memory glob) pattern h = (Ok tt, (h ++ evs)%list)
    /\ getOrSet JSON_stringify JSON_parse (memory glob) key fetchData ttl (h ++ evs)%list
       = (Ok data,
          ((h ++ evs) ++
           [Get key (Ok None); FetchData (Ok data);
            SetEx key (match ttl with Some s => s | None => CACHE_TTL end)
              (JSON_stringify data) (Ok tt)])%list).
Proof.
  intros Hglob Hfetch.
  destruct (invalidatePattern_run glob pattern h) as (found & deleted & Hrun & Hfound).
  eexists. split; [exact Hrun|].
  apply getOrSet_miss.
  - cbn [memory get].
    now rewrite (entry_after_invalidation glob pattern h found deleted Hfound), Hglob.
  - reflexivity.
  - apply Hfetch.
  - reflexivity.
Qed.

End CacheFacts.

(** ** The authentication middleware *)

Section SplitFacts.
Import JsString JsSplit.

Variable sep : ascii.

(** The first piece of a split: it holds no separator, and the other pieces
    are the split of what follows its separator. *)
Lemma split_head (s : string) :
  exists piece pieces,
    split sep s = piece :: pieces
    /\ has_char sep piece = false
    /\ (pieces = [] /\ s = piece
        \/ exists rest, s = piece ++ String sep rest /\ pieces = split sep rest).
Proof.
  induction s as [|c s (piece & pieces & Hsplit & Hpiece & Hrest)].
  - exists EmptyString, []. split; [reflexivity|]. split; [reflexivity|]. left. now split.
  - cbn [split]. destruct (Ascii.eqb c sep) eqn:Hc.
    + apply Ascii.eqb_eq in Hc. subst c.
      exists EmptyString, (split sep s). split; [reflexivity|]. split; [reflexivity|].
      right. exists s. split; reflexivity.
    + rewrite Hsplit. exists (String c piece), pieces. split; [reflexivity|]. split.
      * cbn [has_char]. rewrite Ascii.eqb_sym, Hc. exact Hpiece.
      * destruct Hrest as [(-> & ->)|(rest & -> & ->)].
        -- left. now split.
        -- right. exists rest. now split.
Qed.

Lemma split_piece (piece rest : string) :
  has_char sep piece = false ->
  split sep (piece ++ String sep rest) = piece :: split sep rest.
Proof.
  induction piece as [|c piece IH]; cbn [has_char append split]; intros Hpiece.
  - now rewrite Ascii.eqb_refl.
  - apply orb_false_iff in Hpiece. destruct Hpiece as (Hc & Hpiece).
    rewrite Ascii.eqb_sym, Hc, (IH Hpiece). reflexivity.
Qed.

Lemma split_last (piece : string) :
  has_char sep piece = false -> split sep piece = [piece].
Proof.
  induction piece as [|c piece IH]; cbn [has_char split]; intros Hpiece; [reflexivity|].
  apply orb_false_iff in Hpiece. destruct Hpiece as (Hc & Hpiece).
  rewrite Ascii.eqb_sym, Hc, (IH Hpiece). reflexivity.
Qed.

(** The second piece of a split, when there is one. *)
Lemma split_second (s : string) :
  match nth_error (split sep s) 1 with
  | Some second =>
      exists first tail,
        s = first ++ String sep (second ++ tail)
        /\ has_char sep first = false
        /\ has_char sep second = false
        /\ (tail = EmptyString \/ exists rest, tail = String sep rest)
  | None => has_char sep s = false
  end.
Proof.
  destruct (split_head s) as (first & pieces & Hsplit & Hfirst & Hrest).
  rewrite Hsplit. cbn [nth_error].
  destruct Hrest as [(-> & ->)|(rest & -> & ->)]; [exact Hfirst|].
  destruct (split_head rest) as (second & pieces & Hsplit' & Hsecond & Hrest).
  rewrite Hsplit'. cbn [nth_error].
  exists first.
  destruct Hrest as [(-> & ->)|(rest' & -> & ->)].
  - exists EmptyString. rewrite JsStringFacts.append_nil_r. auto.
  - exists (String sep rest'). split; [reflexivity|]. split; [exact Hfirst|].
    split; [exact Hsecond|]. right. now exists rest'.
Qed.

End SplitFacts.

Section AuthFacts.
Import JsString JsSplit Auth.

Variable env_JWT_SECRET : option string.
Variable jwt_verify : string -> string -> result User.t.

Lemma token_of_second_word (req : AuthRequest.t) (scheme token tail : string) :
  has_char " " scheme = false ->
  has_char " " token = false ->
  tail = EmptyString \/ (exists rest, tail = String " " rest) ->
  AuthRequest.authorization req = Some (scheme ++ String " " (token ++ tail)) ->
  token_of req = Some token.
Proof.
  intros Hscheme Htoken Htail Hheader. unfold token_of. rewrite Hheader.
  rewrite (split_piece " " scheme _ Hscheme). cbn [nth_error].
  destruct Htail as [->|(rest & ->)].
  - now rewrite JsStringFacts.append_nil_r, (split_last " " token Htoken).
  - now rewrite (split_piece " " token rest Htoken).
Qed.

(** X16.  The token is the second word of the [Authorization] header.  For
    a header made of a first word, a space, a non-empty second word and
    then nothing or a space and anything, [authenticate] verifies the second
    word with the secret: it calls [next()] with [req.user] set to the
    decoded payload, or answers 401 "Invalid token" when the verification
    throws.  The first word is not read: any scheme, even none, is taken
    for [Bearer]; what follows the second word is not read either. *)
Theorem authenticate_reads_second_word (req : AuthRequest.t) (scheme token tail : string) :
  has_char " " scheme = false ->
  has_char " " token = false ->
  token <> EmptyString ->
  tail = EmptyString \/ (exists rest, tail = String " " rest) ->
  AuthRequest.authorization req = Some (scheme ++ String " " (token ++ tail)) ->
  authenticate env_JWT_SECRET jwt_verify req
  = match jwt_verify token (JWT_SECRET env_JWT_SECRET) with
    | Ok decoded => Next (AuthRequest.mk (AuthRequest.authorization req) (Some decoded))
    | Thrown _ => Sent (Response.mk 401 (Response.Failure "unauthorized" "Invalid token"))
    end.
Proof.
  intros Hscheme Htoken Hnonempty Htail Hheader. unfold authenticate.
  rewrite (token_of_second_word req scheme token tail Hscheme Htoken Htail Hheader).
  destruct token as [|c token]; [congruence | reflexivity].
Qed.

(** X17.  [authenticate] answers 401 "No token provided" exactly when the
    header is missing, has no space, or has nothing between its first space
    and the end or the next space; the token verifier has no say in it. *)
Theorem authenticate_without_token (req : AuthRequest.t) :
  authenticate env_JWT_SECRET jwt_verify req
  = Sent (Response.mk 401 (Response.Failure "unauthorized" "No token provided"))
  <-> (AuthRequest.authorization req = None
       \/ exists scheme,
           has_char " " scheme = false
           /\ (AuthRequest.authorization req = Some scheme
               \/ exists tail,
                   AuthRequest.authorization req = Some (scheme ++ String " " tail)
                   /\ (tail = EmptyString \/ exists rest, tail = String " " rest))).
Proof.
  split.
  - unfold authenticate, token_of.
    destruct (AuthRequest.authorization req) as [header|]; [|now left].
    pose proof (split_second " " header) as Hsecond.
    destruct (nth_error (split " " header) 1) as [[|c token]|].
    + intros _. right.
      destruct Hsecond as (scheme & tail & -> & Hscheme & _ & Htail).
      exists scheme. split; [exact Hscheme|]. right. exists tail. now split.
    + destruct (jwt_verify _ _); discriminate.
    + intros _. right. exists header. split; [exact Hsecond | now left].
  - intros [Hnone|(scheme & Hscheme & [Hheader|(tail & Hheader & Htail)])];
      unfold authenticate.
    + unfold token_of. now rewrite Hnone.
    + unfold token_of. rewrite Hheader, (split_last " " scheme Hscheme). reflexivity.
    + rewrite (token_of_second_word req scheme EmptyString tail Hscheme eq_refl Htail Hheader).
      reflexivity.
Qed.

Lemma guarded_run (roles : list string) (req : AuthRequest.t) :
  chain [authenticate env_JWT_SECRET jwt_verify; requireRole roles] req
  = match token_of req with
    | Some (String c t) =>
        match jwt_verify (String c t) (JWT_SECRET env_JWT_SECRET) with
        | Ok decoded =>
            if existsb (String.eqb (User.role decoded)) roles
            then Next (AuthRequest.mk (AuthRequest.authorization req) (Some decoded))
            else Sent (Response.mk 403
                         (Response.Failure "forbidden" "Insufficient permissions"))
        | Thrown _ =>
            Sent (Response.mk 401 (Response.Failure "unauthorized" "Invalid token"))
        end
    | _ => Sent (Response.mk 401 (Response.Failure "unauthorized" "No token provided"))
    end.
Proof.
  cbn [chain]. unfold authenticate.
  destruct (token_of req) as [[|c t]|]; try reflexivity.
  destruct (jwt_verify _ _) as [decoded|e]; [|reflexivity].
  unfold requireRole. cbn [AuthRequest.user].
  destruct (existsb _ roles); reflexivity.
Qed.

Lemma guarded_pass (roles : list string) (req req' : AuthRequest.t) :
  chain [authenticate env_JWT_SECRET jwt_verify; requireRole roles] req = Next req'
  <-> exists token decoded,
      token_of req = Some token
      /\ token <> EmptyString
      /\ jwt_verify token (JWT_SECRET env_JWT_SECRET) = Ok decoded
      /\ In (User.role decoded) roles
      /\ req' = AuthRequest.mk (AuthRequest.authorization req) (Some decoded).
Proof.
  rewrite guarded_run. split.
  - destruct (token_of req) as [[|c t]|]; try discriminate.
    destruct (jwt_verify _ _) as [decoded|e] eqn:Hverify; [|discriminate].
    destruct (existsb _ roles) eqn:Hrole; [|discriminate].
    intros [= <-]. exists (String c t), decoded.
    apply existsb_eqb_in in Hrole. repeat split; auto. discriminate.
  - intros (token & decoded & -> & Hnonempty & Hverify & Hrole & ->).
    destruct token as [|c t]; [congruence|]. rewrite Hverify.
    apply existsb_eqb_in in Hrole. now rewrite Hrole.
Qed.

(** X18.  A route behind [authenticate] and [requireRole(roles)].  The
    handler is reached exactly when the second word of the header verifies
    to a payload whose role is one of [roles], and then with [req.user] set
    to that payload, whatever [req.user] held before.  Any other request is
    answered 401, or 403 when its token verifies to a role outside [roles].
    A larger role list lets pass whatever a smaller one does. *)
Theorem guarded_route (roles : list string) (req : AuthRequest.t) :
  (forall req',
      chain [authenticate env_JWT_SECRET jwt_verify; requireRole roles] req = Next req'
      <-> exists token decoded,
          token_of req = Some token
          /\ token <> EmptyString
          /\ jwt_verify token (JWT_SECRET env_JWT_SECRET) = Ok decoded
          /\ In (User.role decoded) roles
          /\ req' = AuthRequest.mk (AuthRequest.authorization req) (Some decoded))
  /\ (forall res,
         chain [authenticate env_JWT_SECRET jwt_verify; requireRole roles] req = Sent res ->
         Response.status res = 401
         \/ Response.status res = 403
            /\ exists token decoded,
                token_of req = Some token
                /\ jwt_verify token (JWT_SECRET env_JWT_SECRET) = Ok decoded
                /\ ~ In (User.role decoded) roles)
  /\ (forall roles' req',
         incl roles roles' ->
         chain [authenticate env_JWT_SECRET jwt_verify; requireRole roles] req = Next req' ->
         chain [authenticate env_JWT_SECRET jwt_verify; requireRole roles'] req = Next req').
Proof.
  split; [exact (guarded_pass roles req) | split].
  - intros res. rewrite guarded_run.
    destruct (token_of req) as [[|c t]|]; try (intros [= <-]; now left).
    destruct (jwt_verify _ _) as [decoded|e] eqn:Hverify; [|intros [= <-]; now left].
    destruct (existsb _ roles) eqn:Hrole; [discriminate|].
    intros [= <-]. right. split; [reflexivity|].
    exists (String c t), decoded. repeat split; auto.
    intros Hin. apply existsb_eqb_in in Hin. congruence.
  - intros roles' req' Hincl Hnext. apply guarded_pass. apply guarded_pass in Hnext.
    destruct Hnext as (token & decoded & H1 & H2 & H3 & H4 & H5).
    exists token, decoded. repeat split; auto.
Qed.

(** X19.  The three exported guards.  Behind [authenticate], whatever
    passes [requireAdmin] passes [requireUserOrAdmin]; and a request that
    passes [requireService] is answered 403 by [requireAdmin] and by
    [requireUserOrAdmin]: a service token reaches no admin or user route. *)
Theorem exported_guards (req : AuthRequest.t) :
  (forall req',
      chain [authenticate env_JWT_SECRET jwt_verify; requireAdmin] req = Next req' ->
      chain [authenticate env_JWT_SECRET jwt_verify; requireUserOrAdmin] req = Next req')
  /\ (forall req',
         chain [authenticate env_JWT_SECRET jwt_verify; requireService] req = Next req' ->
         chain [authenticate env_JWT_SECRET jwt_verify; requireAdmin] req
         = Sent (Response.mk 403 (Response.Failure "forbidden" "Insufficient permissions"))
         /\ chain [authenticate env_JWT_SECRET jwt_verify; requireUserOrAdmin] req
            = Sent (Response.mk 403 (Response.Failure "forbidden" "Insufficient permissions"))).
Proof.
  unfold requireAdmin, requireService, requireUserOrAdmin. split.
  - intros req' Hnext. apply guarded_pass. apply guarded_pass in Hnext.
    destruct Hnext as (token & decoded & H1 & H2 & H3 & [H4|[]] & H5).
    exists token, decoded. repeat split; auto. right. now left.
  - intros req' Hnext. apply guarded_pass in Hnext.
    destruct Hnext as (token & decoded & H1 & H2 & H3 & [H4|[]] & H5).
    rewrite !guarded_run, H1. destruct token as [|c t]; [congruence|].
    rewrite H3, <- H4. split; reflexivity.
Qed.

End AuthFacts.

(** ** The ingestion route *)

Section CacheReads.

Variable JSON_parse : string -> result (option (list AlertRule.t)).
Variable reading : Reading.t.
Variable io : option Io.server.

Lemma loop_cache_reads metric rules evs r :
  loop_trace reading io metric rules evs r -> cache_reads evs = [].
Proof.
  induction 1; cbn; auto.
Qed.

Lemma body_cache_reads evs r :
  body_trace JSON_parse reading io evs r ->
  cache_reads evs = ["alert_rules:" ++ Reading.metric_id reading].
Proof.
  assert (Hfetch : forall fetched (r' : result (list AlertRule.t)),
             fetch_trace JSON_parse reading fetched r' ->
             cache_reads fetched = ["alert_rules:" ++ Reading.metric_id reading]).
  { intros fetched r' [e|c text e Hp|c text rules Hp|cached evs' r0 Hmiss Hstore];
      try reflexivity.
    destruct Hstore; reflexivity. }
  intros [fetched e Hf|fetched rules evs' r' Hf Heval].
  - exact (Hfetch _ _ Hf).
  - unfold cache_reads. rewrite flat_map_app. fold (cache_reads fetched).
    rewrite (Hfetch _ _ Hf).
    destruct Heval as [e| |metric evs' r' Hloop]; try reflexivity.
    pose proof (loop_cache_reads _ _ _ _ Hloop) as Hnone. unfold cache_reads in Hnone.
    cbn [flat_map app]. now rewrite Hnone.
Qed.

End CacheReads.

Section IngestionFacts.
Import Ingestion.

Variable redisClient : Redis.client.
Variable prisma : Prisma.client.
Variable JSON_parse : string -> result (option (list AlertRule.t)).
Variable liveIo : Io.server.
Variable Date_of : string -> Z.
Variable metric_findMany : history -> list string -> result (list Metric.t).
Variable transaction : history -> list ReadingData.t -> result (list Reading.t).

Ltac run := unfold bind, await, ret, lift, call; cbv beta zeta.

(** One run of [checkRules] reads the cache once, under its reading's key. *)
Lemma checkRules_cache_reads (reading : Reading.t) (io : option Io.server) (h : history) :
  exists evs,
    checkRules redisClient prisma JSON_parse reading io h = (Ok tt, (h ++ evs)%list)
    /\ cache_reads evs = ["alert_rules:" ++ Reading.metric_id reading].
Proof.
  destruct (checkRules_run redisClient prisma JSON_parse reading io h)
    as (evs & r & Htr & _ & Hrun).
  eexists. split; [exact Hrun|].
  unfold cache_reads. rewrite flat_map_app. fold (cache_reads evs).
  rewrite (body_cache_reads _ _ _ _ _ Htr). now destruct r.
Qed.

(** The loop of line 394: one evaluation for each created reading, in the
    order of [created]; it returns normally. *)
Lemma for_created_run (created : list Reading.t) (h : history) :
  exists evs,
    for_created redisClient prisma JSON_parse liveIo created h = (Ok tt, (h ++ evs)%list)
    /\ cache_reads evs = map (fun r => "alert_rules:" ++ Reading.metric_id r) created.
Proof.
  revert h. induction created as [|r created IH]; intros h.
  - exists []. split; [now rewrite app_nil_r | reflexivity].
  - cbn [for_created map]. unfold bind at 1.
    destruct (checkRules_cache_reads r (Some liveIo) h) as (evs1 & -> & Hreads1).
    destruct (IH (h ++ evs1)%list) as (evs2 & -> & Hreads2).
    exists (evs1 ++ evs2)%list. split; [now rewrite app_assoc|].
    unfold cache_reads in *. now rewrite flat_map_app, Hreads1, Hreads2.
Qed.




(** X21.  Alerting cannot fail an ingestion.  When the body parses, the
    store answers the metrics and the transaction, if there is anything to
    write, answers the created readings, the handler answers 202 with the
    number of readings written and the number left out, whatever the cache,
    the store and the notifier do during the evaluation of the rules; and
    it has run [checkRules] once for each created reading, in order.  With
    nothing to write the transaction is not consulted. *)
Theorem alerting_cannot_fail_ingestion (req : AuthRequest.t) (user : User.t)
        (readings : list ReadingInput.t) (metrics : list Metric.t)
        (created : list Reading.t) (h : history) :
  AuthRequest.user req = Some user ->
  metric_findMany h (metricIds readings) = Ok metrics ->
  let valid :=
    validReadings Date_of (map Metric.id (filter (may_write user) metrics)) readings in
  match valid with
  | [] => created = []
  | _ :: _ => transaction h valid = Ok created
  end ->
  exists evs,
    post_readings redisClient prisma JSON_parse liveIo Date_of metric_findMany transaction
      req (Ok readings) h
    = (Ok (Response.mk 202
             (Response.Accepted (Z.of_nat (List.length valid))
                (Z.of_nat (List.length readings) - Z.of_nat (List.length valid)))),
       (h ++ evs)%list)
    /\ cache_reads evs = map (fun r => "alert_rules:" ++ Reading.metric_id r) created
    /\ (List.length valid <= List.length readings)%nat.
Proof.
  intros Huser Hfind valid Hcreated.
  destruct (for_created_run created h) as (evs & Hrun & Hreads).
  exists evs. split; [|split; [exact Hreads|]].
  - unfold post_readings, try_catch. run. rewrite Hfind, Huser.
    cbn [allowedMetricIds]. fold valid.
    destruct valid as [|d valid'] eqn:Hvalid.
    + subst created. now rewrite Hrun.
    + rewrite Hcreated. now rewrite Hrun.
  - subst valid. unfold validReadings. rewrite length_map. apply filter_length_le.
Qed.

Lemma authenticate_sends_401 env_JWT_SECRET jwt_verify req res :
  Auth.authenticate env_JWT_SECRET jwt_verify req = Auth.Sent res ->
  Response.status res = 401.
Proof.
  unfold Auth.authenticate.
  destruct (Auth.token_of req) as [[|c t]|]; try (now intros [= <-]).
  destruct (jwt_verify _ _); [discriminate | now intros [= <-]].
Qed.

Lemma authenticate_sets_user env_JWT_SECRET jwt_verify req req' :
  Auth.authenticate env_JWT_SECRET jwt_verify req = Auth.Next req' ->
  exists user, AuthRequest.user req' = Some user.
Proof.
  unfold Auth.authenticate.
  destruct (Auth.token_of req) as [[|c t]|]; try discriminate.
  destruct (jwt_verify _ _) as [decoded|e]; [|discriminate].
  intros [= <-]. now exists decoded.
Qed.

(** What the handler answers behind [authenticate], whatever its
    collaborators answer. *)
Lemma post_readings_outcomes (req : AuthRequest.t) (user : User.t)
      (parsed : result (list ReadingInput.t)) (h : history) :
  AuthRequest.user req = Some user ->
  exists res evs,
    post_readings redisClient prisma JSON_parse liveIo Date_of metric_findMany transaction
      req parsed h = (Ok res, (h ++ evs)%list)
    /\ (res = Response.mk 400 Response.Refused /\ evs = []
        /\ (exists e,
               parsed = Thrown e
               \/ exists readings,
                   parsed = Ok readings
                   /\ (metric_findMany h (metricIds readings) = Thrown e
                       \/ exists valid, valid <> [] /\ transaction h valid = Thrown e))
        \/ exists readings accepted rejected,
            parsed = Ok readings
            /\ res = Response.mk 202 (Response.Accepted accepted rejected)
            /\ 0 <= accepted /\ 0 <= rejected
            /\ accepted + rejected = Z.of_nat (List.length readings)).
Proof.
  intros Huser. unfold post_readings, try_catch. run. rewrite Huser.
  destruct parsed as [readings|e].
  2:{ exists (Response.mk 400 Response.Refused), []. rewrite app_nil_r.
      split; [reflexivity|]. left. repeat split. exists e. now left. }
  destruct (metric_findMany h (metricIds readings)) as [metrics|e] eqn:Hfind.
  2:{ exists (Response.mk 400 Response.Refused), []. rewrite app_nil_r.
      split; [reflexivity|]. left. repeat split. exists e. right.
      exists readings. split; [reflexivity | now left]. }
  cbn [allowedMetricIds lift]. cbv beta iota.
  set (allowed := map Metric.id (filter (may_write user) metrics)).
  assert (Hlen : (List.length (validReadings Date_of allowed readings)
                  <= List.length readings)%nat).
  { unfold validReadings. rewrite length_map. apply filter_length_le. }
  destruct (validReadings Date_of allowed readings) as [|d valid] eqn:Hvalid;
    cbv beta iota zeta.
  - destruct (for_created_run [] h) as (evs & Hrun & _). rewrite Hrun.
    do 2 eexists. split; [reflexivity|]. right.
    exists readings. do 2 eexists. split; [reflexivity|]. split; [reflexivity|].
    cbn [List.length]. lia.
  - destruct (transaction h (d :: valid)) as [created|e] eqn:Htransaction.
    2:{ exists (Response.mk 400 Response.Refused), []. rewrite app_nil_r.
        split; [reflexivity|]. left. repeat split. exists e. right.
        exists readings. split; [reflexivity|]. right.
        exists (d :: valid). split; [discriminate | exact Htransaction]. }
    destruct (for_created_run created h) as (evs & Hrun & _). rewrite Hrun.
    do 2 eexists. split; [reflexivity|]. right.
    exists readings. do 2 eexists. split; [reflexivity|]. split; [reflexivity|]. lia.
Qed.

(** X22.  The ingestion route, whatever the request and whatever its
    collaborators answer, does not throw and answers 401, 400 or 202.  It
    answers 401 when [authenticate] does, and 400 only when the body did not
    parse, [metric.findMany] failed or the transaction failed; in both
    cases no rule was evaluated.  In a 202 answer the accepted and the
    rejected readings add up to the readings of the batch. *)
Theorem ingestion_route_outcomes (env_JWT_SECRET : option string)
        (jwt_verify : string -> string -> result User.t)
        (req : AuthRequest.t) (parsed : result (list ReadingInput.t)) (h : history) :
  exists res evs,
    route redisClient prisma JSON_parse liveIo Date_of metric_findMany transaction
      env_JWT_SECRET jwt_verify req parsed h = (Ok res, (h ++ evs)%list)
    /\ (Response.status res = 401 /\ evs = []
        /\ Auth.authenticate env_JWT_SECRET jwt_verify req = Auth.Sent res
        \/ res = Response.mk 400 Response.Refused /\ evs = []
           /\ (exists e,
                  parsed = Thrown e
                  \/ exists readings,
                      parsed = Ok readings
                      /\ (metric_findMany h (metricIds readings) = Thrown e
                          \/ exists valid, valid <> [] /\ transaction h valid = Thrown e))
        \/ exists readings accepted rejected,
            parsed = Ok readings
            /\ res = Response.mk 202 (Response.Accepted accepted rejected)
            /\ 0 <= accepted /\ 0 <= rejected
            /\ accepted + rejected = Z.of_nat (List.length readings)).
Proof.
  unfold route.
  destruct (Auth.authenticate env_JWT_SECRET jwt_verify req) as [req'|res] eqn:Hauth.
  - destruct (authenticate_sets_user _ _ _ _ Hauth) as (user & Huser).
    destruct (post_readings_outcomes req' user parsed h Huser) as (res & evs & Hrun & Hres).
    exists res, evs. split; [exact Hrun | now right].
  - exists res, []. split; [unfold ret; now rewrite app_nil_r|].
    left. split; [|split; reflexivity]. eapply authenticate_sends_401, Hauth.
Qed.

(** X23.  A batch for somebody else's metrics.  When the token of the
    request verifies to a user who is not an admin, and none of the metrics
    the store finds for the batch is owned by that user, the route answers
    202 with every reading rejected; the transaction is not consulted and no
    rule is evaluated. *)
Theorem foreign_batch_is_rejected (env_JWT_SECRET : option string)
        (jwt_verify : string -> string -> result User.t)
        (req : AuthRequest.t) (token : string) (user : User.t)
        (readings : list ReadingInput.t) (metrics : list Metric.t) (h : history) :
  AuthRequest.authorization req = Some ("Bearer " ++ token) ->
  JsString.has_char " " token = false ->
  token <> EmptyString ->
  jwt_verify token (Auth.JWT_SECRET env_JWT_SECRET) = Ok user ->
  User.role user <> "admin" ->
  metric_findMany h (metricIds readings) = Ok metrics ->
  (forall m, In m metrics -> Device.owner_id (Metric.device m) <> Some (User.id user)) ->
  route redisClient prisma JSON_parse liveIo Date_of metric_findMany transaction
    env_JWT_SECRET jwt_verify req (Ok readings) h
  = (Ok (Response.mk 202 (Response.Accepted 0 (Z.of_nat (List.length readings)))), h).
Proof.
  intros Hheader Htoken Hnonempty Hverify Hrole Hfind Hforeign.
  unfold route.
  unfold Auth.authenticate.
  rewrite (token_of_second_word req "Bearer" token EmptyString eq_refl Htoken
             (or_introl eq_refl)).
  2:{ rewrite JsStringFacts.append_nil_r. exact Hheader. }
  destruct token as [|c token]; [congruence|]. rewrite Hverify.
  assert (Hnone : filter (may_write user) metrics = []).
  { clear Hfind. induction metrics as [|m ms IH]; [reflexivity|].
    cbn [filter].
    assert (Hm : may_write user m = false).
    { unfold may_write. apply orb_false_iff. split.
      - apply String.eqb_neq, Hrole.
      - specialize (Hforeign m (or_introl eq_refl)).
        destruct (Device.owner_id (Metric.device m)) as [owner|]; [|reflexivity].
        apply String.eqb_neq. congruence. }
    rewrite Hm. apply IH. intros m' Hin. apply Hforeign. now right. }
  unfold post_readings, try_catch. run. rewrite Hfind.
  cbn [AuthRequest.user allowedMetricIds]. rewrite Hnone. cbn [map].
  assert (Hvalid : validReadings Date_of [] readings = []).
  { unfold validReadings. cbn [existsb].
    assert (Hf : forall rs, filter (fun _ : ReadingInput.t => false) rs = [])
      by (intros rs; induction rs as [|r rs IH]; [reflexivity | exact IH]).
    now rewrite Hf. }
  rewrite Hvalid. cbn [for_created List.length]. unfold ret.
  now rewrite Z.sub_0_r.
Qed.

End IngestionFacts.

(** ** Scenarios of the cache helper, the middleware and the route *)

Section RouteScenarios.
Import Fixtures RouteFixtures.

(** The rules of a metric through [getOrSet]: fetched and stored by the
    first call, read from the cache by the second, whose data source is
    down. *)
Lemma getOrSet_round_trip_example :
  Cache.getOrSet JSON.stringify parse_rules (Cache.memory any_key) "alert_rules:metric-123"
    (fun _ => Ok [mockAlertRule]) None []
  = (Ok [mockAlertRule],
     [Cache.Get "alert_rules:metric-123" (Ok None);
      Cache.FetchData (Ok [mockAlertRule]);
      Cache.SetEx "alert_rules:metric-123" 60 (JSON.stringify [mockAlertRule]) (Ok tt)])
  /\ Cache.getOrSet JSON.stringify parse_rules (Cache.memory any_key) "alert_rules:metric-123"
       (fun _ => Thrown "Database down") None
       [Cache.Get "alert_rules:metric-123" (Ok None);
        Cache.FetchData (Ok [mockAlertRule]);
        Cache.SetEx "alert_rules:metric-123" 60 (JSON.stringify [mockAlertRule]) (Ok tt)]
     = (Ok [mockAlertRule],
        [Cache.Get "alert_rules:metric-123" (Ok None);
         Cache.FetchData (Ok [mockAlertRule]);
         Cache.SetEx "alert_rules:metric-123" 60 (JSON.stringify [mockAlertRule]) (Ok tt);
         Cache.Get "alert_rules:metric-123" (Ok (Some (JSON.stringify [mockAlertRule])))]).
Proof.
  destruct (getOrSet_round_trip (list AlertRule.t) JSON.stringify parse_rules any_key
              "alert_rules:metric-123" (fun _ => Ok [mockAlertRule]) None [] [mockAlertRule])
    as [Hfirst Hsecond].
  - vm_compute. reflexivity.
  - vm_compute. discriminate.
  - reflexivity.
  - reflexivity.
  - split; [exact Hfirst | exact (Hsecond (fun _ => Thrown "Database down") None)].
Defined.

(** After the invalidation of every key, the rules are fetched again. *)
Lemma invalidated_key_is_fetched_again_example :
  exists evs,
    Cache.invalidatePattern (Cache.memory any_key) "*"
      [Cache.SetEx "alert_rules:metric-123" 60 (JSON.stringify [rule2]) (Ok tt)]
    = (Ok tt,
       ([Cache.SetEx "alert_rules:metric-123" 60 (JSON.stringify [rule2]) (Ok tt)]
        ++ evs)%list)
    /\ Cache.getOrSet JSON.stringify parse_rules (Cache.memory any_key)
         "alert_rules:metric-123" (fun _ => Ok [mockAlertRule]) (Some 300)
         ([Cache.SetEx "alert_rules:metric-123" 60 (JSON.stringify [rule2]) (Ok tt)]
          ++ evs)%list
       = (Ok [mockAlertRule],
          (([Cache.SetEx "alert_rules:metric-123" 60 (JSON.stringify [rule2]) (Ok tt)]
            ++ evs)
           ++ [Cache.Get "alert_rules:metric-123" (Ok None);
               Cache.FetchData (Ok [mockAlertRule]);
               Cache.SetEx "alert_rules:metric-123" 300 (JSON.stringify [mockAlertRule])
                 (Ok tt)])%list).
Proof.
  apply (invalidated_key_is_fetched_again (list AlertRule.t) JSON.stringify parse_rules
           any_key "*" "alert_rules:metric-123" (fun _ => Ok [mockAlertRule]) (Some 300)
           [Cache.SetEx "alert_rules:metric-123" 60 (JSON.stringify [rule2]) (Ok tt)]
           [mockAlertRule]).
  - reflexivity.
  - reflexivity.
Defined.

(** The scheme is not read: [Basic valid_token] authenticates. *)
Lemma authenticate_reads_second_word_example :
  Auth.authenticate None (verify_as mockUser)
    (AuthRequest.mk (Some "Basic valid_token and more") None)
  = Auth.Next (AuthRequest.mk (Some "Basic valid_token and more") (Some mockUser)).
Proof.
  apply (authenticate_reads_second_word None (verify_as mockUser)
           (AuthRequest.mk (Some "Basic valid_token and more") None)
           "Basic" "valid_token" " and more").
  - reflexivity.
  - reflexivity.
  - discriminate.
  - right. now exists "and more".
  - reflexivity.
Defined.

(** The owner of the device posts one reading of its metric while the
    cache of the engine is down. *)
Lemma alerting_cannot_fail_ingestion_example :
  exists evs,
    Ingestion.post_readings redis_down (prisma_ok [rule] (Some metric))
      (parse_of [rule]) mockIo epoch (fun _ _ => Ok [metric])
      (fun _ _ => Ok [createdReading])
      (AuthRequest.mk (Some "Bearer valid_token") (Some owner)) (Ok batch) []
    = (Ok (Response.mk 202 (Response.Accepted 1 0)), evs)
    /\ cache_reads evs = ["alert_rules:123e4567-e89b-12d3-a456-426614174000"].
Proof.
  destruct (alerting_cannot_fail_ingestion redis_down
              (prisma_ok [rule] (Some metric)) (parse_of [rule])
              mockIo epoch (fun _ _ => Ok [metric]) (fun _ _ => Ok [createdReading])
              (AuthRequest.mk (Some "Bearer valid_token") (Some owner)) owner batch
              [metric] [createdReading] [])
    as (evs & Hrun & Hreads & _).
  - reflexivity.
  - reflexivity.
  - reflexivity.
  - exists evs. split; [exact Hrun | exact Hreads].
Defined.

(** Somebody else posts a reading of that metric. *)
Lemma foreign_batch_is_rejected_example :
  Ingestion.route redis_miss (prisma_ok [rule] (Some metric))
    (parse_of [rule]) mockIo epoch (fun _ _ => Ok [metric])
    (fun _ _ => Thrown "unreachable") None (verify_as stranger) bearer (Ok batch) []
  = (Ok (Response.mk 202 (Response.Accepted 0 1)), []).
Proof.
  apply (foreign_batch_is_rejected redis_miss (prisma_ok [rule] (Some metric))
           (parse_of [rule]) mockIo epoch (fun _ _ => Ok [metric])
           (fun _ _ => Thrown "unreachable") None (verify_as stranger) bearer
           "valid_token" stranger batch [metric] []).
  - reflexivity.
  - reflexivity.
  - discriminate.
  - reflexivity.
  - discriminate.
  - reflexivity.
  - intros m [<-|[]]. discriminate.
Defined.

End RouteScenarios.
